(** * Violation lifecycle engine of the compliance scanner

    A shallow embedding of [backend/scanner.py] (class [Scanner]) and of the
    one entry point of [backend/app.py] that drives it, together with the
    properties of the reconciliation engine, the detection pipeline and the
    scan orchestrator.

    Conventions of the embedding.
    - A Python [str] is the [string] of its UTF-8 bytes; operations that act
      on characters (regular expressions, slicing, [lower], [strip]) go
      through the list of code points.
    - A Python value that can sit in a violation record is a [value]: the
      JSON fragment of Python ([None], [bool], [int], [float], [str],
      [list], [dict]).  A float is not-a-number, an infinity or a dyadic
      number, and comes with the text that [repr] prints for it: the
      shortest decimal that reads back as the same double is taken from
      the value and not computed.
    - A violation record ([Dict[str, Any]]) is a finite map from keys to
      values.  The order of the keys of a record is not observable by the
      scanner and is not modelled.  Every entry of a ledger is a dict object
      of its own: value semantics is used for the in-place updates of
      [_reconcile].
    - [now_iso()] reads the wall clock; the functions that call it take the
      reading as an argument. *)

From Stdlib Require Import ZArith NArith String Ascii List Bool Lia.
From stdpp Require Import base gmap strings list option pretty sorting.

Set Warnings "-register-all".
Open Scope string_scope.
Open Scope list_scope.

(** ** Python values *)

(** A Python [float] as [json.loads] can return one: [NaN], [Infinity]
    or [-Infinity], or the number [m * 2^e]. *)
Inductive float :=
| FNan
| FInf (negative : bool)
| FNum (m e : Z).

(** [x == y] on floats: not-a-number equals nothing, itself included. *)
Definition float_eqb (x y : float) : bool :=
  match x, y with
  | FNum m e, FNum m' e' =>
      let k := Z.min e e' in (m * 2 ^ (e - k) =? m' * 2 ^ (e' - k))%Z
  | FInf a, FInf b => bool_decide (a = b)
  | _, _ => false
  end.

Inductive value :=
| VNone
| VBool (b : bool)
| VInt (n : Z)
| VFloat (x : float) (text : string)
| VStr (s : string)
| VList (xs : list value)
| VDict (kvs : list (string * value)).

Abbreviation record := (gmap string value).

(** [x is None] *)
Definition is_none (v : value) : bool :=
  match v with VNone => true | _ => false end.

(** Truth value of an object, as [or] and [if] test it. *)
Definition truthy (v : value) : bool :=
  match v with
  | VNone => false
  | VBool b => b
  | VInt n => negb (n =? 0)%Z
  | VFloat (FNum m _) _ => negb (m =? 0)%Z
  | VFloat _ _ => true
  | VStr s => negb (bool_decide (s = ""))
  | VList xs => negb (bool_decide (xs = []))
  | VDict kvs => negb (bool_decide (length kvs = 0))
  end.

(** [a or b] *)
Definition py_or (a b : value) : value := if truthy a then a else b.

(** [a == b] on the JSON fragment: [True == 1 == 1.0], lists are compared
    element by element, dicts have the same size and equal values under
    equal keys, whatever the order of insertion.  The values compared are
    objects of their own (each scan parses its reply afresh), so a
    not-a-number inside a list or a dict makes it unequal to its copy. *)
Fixpoint py_eq (a b : value) {struct a} : bool :=
  match a, b with
  | VNone, VNone => true
  | VBool x, VBool y => bool_decide (x = y)
  | VBool x, VInt n => bool_decide (n = if x then 1 else 0)%Z
  | VInt n, VBool x => bool_decide (n = if x then 1 else 0)%Z
  | VInt m, VInt n => bool_decide (m = n)
  | VFloat x _, VFloat y _ => float_eqb x y
  | VFloat x _, VInt n => float_eqb x (FNum n 0)
  | VInt n, VFloat x _ => float_eqb (FNum n 0) x
  | VFloat x _, VBool b => float_eqb x (FNum (if b then 1 else 0) 0)
  | VBool b, VFloat x _ => float_eqb (FNum (if b then 1 else 0) 0) x
  | VStr s, VStr t => bool_decide (s = t)
  | VList xs, VList ys =>
      (fix go (xs ys : list value) : bool :=
         match xs, ys with
         | [], [] => true
         | x :: xs', y :: ys' => py_eq x y && go xs' ys'
         | _, _ => false
         end) xs ys
  | VDict kvs, VDict kvs' =>
      bool_decide (length kvs = length kvs') &&
      forallb (fun kv =>
                 existsb (fun kv' => bool_decide (kv.1 = kv'.1) && py_eq kv.2 kv'.2) kvs')
              kvs
  | _, _ => false
  end.

(** Induction on values, through the lists inside them. *)
Section value_induction.
Variable P : value -> Prop.
Hypothesis HNone : P VNone.
Hypothesis HBool : forall b, P (VBool b).
Hypothesis HInt : forall n, P (VInt n).
Hypothesis HFloat : forall x text, P (VFloat x text).
Hypothesis HStr : forall s, P (VStr s).
Hypothesis HList : forall xs, Forall P xs -> P (VList xs).
Hypothesis HDict : forall kvs, Forall (fun kv => P kv.2) kvs -> P (VDict kvs).

End value_induction.

(** A value that equals itself: there is no not-a-number in it. *)
Definition steady (v : value) : Prop := py_eq v v = true.


(** [repr] of a string: single quotes unless the text has a single quote
    and no double quote; backslash, the quote and the ASCII control
    characters are escaped.  Bytes above 127 are kept as they are: the
    escapes that Python writes for the code points above 127 that are not
    printable (such as U+00A0) are not modelled, and nothing below reads
    the [repr] of such a string. *)
Definition hex_digit (n : N) : ascii :=
  match n with
  | 0 => "0" | 1 => "1" | 2 => "2" | 3 => "3" | 4 => "4" | 5 => "5" | 6 => "6"
  | 7 => "7" | 8 => "8" | 9 => "9" | 10 => "a" | 11 => "b" | 12 => "c"
  | 13 => "d" | 14 => "e" | _ => "f"
  end%N%char.

Definition repr_char (quote c : ascii) : string :=
  let n := N_of_ascii c in
  if bool_decide (c = "\"%char) then "\\"
  else if bool_decide (c = quote) then String "\" (String quote "")
  else if bool_decide (n = 9%N) then "\t"
  else if bool_decide (n = 10%N) then "\n"
  else if bool_decide (n = 13%N) then "\r"
  else if bool_decide (n < 32)%N || bool_decide (n = 127%N)
       then String "\" (String "x" (String (hex_digit (n / 16)) (String (hex_digit (n mod 16)) "")))
  else String c "".

Definition has_char (c : ascii) (s : string) : bool :=
  existsb (fun x => bool_decide (x = c)) (list_ascii_of_string s).

Definition repr_str (s : string) : string :=
  let quote : ascii :=
    if has_char "'" s && negb (has_char "034" s) then "034"%char else "'"%char in
  String quote
    (fold_right (fun c acc => repr_char quote c +:+ acc) (String quote "")
                (list_ascii_of_string s)).

Definition join (sep : string) (xs : list string) : string :=
  match xs with
  | [] => ""
  | x :: xs' => fold_left (fun acc y => acc +:+ sep +:+ y) xs' x
  end.

(** [repr(v)] *)
Fixpoint py_repr (v : value) : string :=
  match v with
  | VNone => "None"
  | VBool true => "True"
  | VBool false => "False"
  | VInt n => pretty n
  | VFloat _ text => text
  | VStr s => repr_str s
  | VList xs => "[" +:+ join ", " (map py_repr xs) +:+ "]"
  | VDict kvs =>
      "{" +:+ join ", " (map (fun kv => repr_str kv.1 +:+ ": " +:+ py_repr kv.2) kvs) +:+ "}"
  end.

(** [str(v)] *)
Definition py_str (v : value) : string :=
  match v with
  | VStr s => s
  | _ => py_repr v
  end.

(** ** Dict operations used on records *)

(** [r.get(k)] *)
Definition get (r : record) (k : string) : value := default VNone (r !! k).

(** [r.get(k, dflt)] *)
Definition get_or (r : record) (k : string) (dflt : value) : value :=
  default dflt (r !! k).

(** [r.setdefault(k, v)] (for its effect on [r]) *)
Definition setdefault (k : string) (v : value) (r : record) : record :=
  match r !! k with
  | Some _ => r
  | None => <[k := v]> r
  end.

(** A Python [dict] whose iteration order matters: keys in order of first
    insertion, a later assignment to a key replaces the value in place. *)
Definition odict (A : Type) := list (string * A).

Fixpoint odict_set {A} (k : string) (v : A) (d : odict A) : odict A :=
  match d with
  | [] => [(k, v)]
  | (k', v') :: d' =>
      if decide (k = k') then (k', v) :: d' else (k', v') :: odict_set k v d'
  end.

Fixpoint odict_get {A} (k : string) (d : odict A) : option A :=
  match d with
  | [] => None
  | (k', v') :: d' => if decide (k = k') then Some v' else odict_get k d'
  end.

(** ** Reconciliation engine: [Scanner._reconcile] *)

Module Reconcile.

(** The key under which a record is indexed: [str(v.get("id"))], when
    [v.get("id") is not None]. *)
Definition id_key (v : record) : option string :=
  match get v "id" with
  | VNone => None
  | i => Some (py_str i)
  end.

(** [{str(v.get("id")): v for v in vs if v.get("id") is not None}] *)
Definition by_id (vs : list record) : odict record :=
  fold_left (fun d v => match id_key v with
                        | Some k => odict_set k v d
                        | None => d
                        end) vs [].

(** The summary dict that [_reconcile] returns, one field per key. *)
Record diff := Diff {
  changed : bool;
  new : nat;
  reopened : nat;
  resolved : nat;
  open_count : nat;
  resolved_count : nat
}.

(** The local variables of [_reconcile] that its two loops update. *)
Record acc := Acc {
  updated : list record;
  acc_changed : bool;
  new_count : nat;
  acc_reopened : nat;
  acc_resolved : nat
}.

Definition FIELDS : list string :=
  ["title"; "summary"; "sourceId"; "policyId"; "severity"; "details"].

(** One turn of [for k in [...]]: copy [d.get(k)] over [old[k]] when it is
    not [None] and differs. *)
Definition overwrite (d : record) (st : record * bool) (k : string) : record * bool :=
  if negb (is_none (get d k)) && negb (py_eq (get d k) (get st.1 k))
  then (<[k := get d k]> st.1, true)
  else st.

(** The branch [if vid in detected_by_id] of the first loop: the entry
    [old], the detection [d] found under its id, and [status] as read at the
    top of the turn.  Returns the entry, whether it was reopened, and the
    [changed] flag. *)
Definition refresh (now : string) (d : record) (status : value)
    (old : record) (chg : bool) : record * bool * bool :=
  let old :=
    if is_none (get old "firstSeenIso")
    then <["firstSeenIso" := py_or (get old "createdAtIso") (VStr now)]> old
    else old in
  let old := <["lastSeenIso" := VStr now]> old in
  let reopen := py_eq status (VStr "RESOLVED") in
  let old :=
    if reopen then <["resolvedAtIso" := VNone]> (<["status" := VStr "OPEN"]> old)
    else old in
  let r := fold_left (overwrite d) FIELDS (old, chg || reopen) in
  (r.1, reopen, r.2).

(** The [else] branch: resolve the entry unless it is resolved already.
    Returns the entry and whether it was resolved now. *)
Definition retire (now : string) (status : value) (old : record) : record * bool :=
  if negb (py_eq status (VStr "RESOLVED"))
  then (<["resolvedAtIso" := VStr now]> (<["status" := VStr "RESOLVED"]> old), true)
  else (old, false).

(** One turn of [for old in existing]. *)
Definition visit (now : string) (detected_by_id : odict record)
    (a : acc) (old : record) : acc :=
  match id_key old with
  | None => a
  | Some vid =>
      let status := get_or old "status" (VStr "OPEN") in
      match odict_get vid detected_by_id with
      | Some d =>
          let '(old', reopen, chg) := refresh now d status old (acc_changed a) in
          {| updated := updated a ++ [old'];
             acc_changed := chg;
             new_count := new_count a;
             acc_reopened := (if reopen then S (acc_reopened a) else acc_reopened a);
             acc_resolved := acc_resolved a |}
      | None =>
          let '(old', res) := retire now status old in
          {| updated := updated a ++ [old'];
             acc_changed := acc_changed a || res;
             new_count := new_count a;
             acc_reopened := acc_reopened a;
             acc_resolved := (if res then S (acc_resolved a) else acc_resolved a) |}
      end
  end.

(** The record built for a detection seen for the first time. *)
Definition new_item (now : string) (d : record) : record :=
  let item := d in
  let item := setdefault "firstSeenIso" (VStr now) item in
  let item := setdefault "lastSeenIso" (VStr now) item in
  let item := setdefault "createdAtIso" (VStr now) item in
  let item := setdefault "read" (VBool false) item in
  let item := <["status" := VStr "OPEN"]> item in
  <["resolvedAtIso" := VNone]> item.

(** One turn of [for vid, d in detected_by_id.items()]. *)
Definition add_new (now : string) (existing_by_id : odict record)
    (a : acc) (kv : string * record) : acc :=
  match odict_get kv.1 existing_by_id with
  | Some _ => a
  | None =>
      {| updated := new_item now kv.2 :: updated a;
         acc_changed := true;
         new_count := S (new_count a);
         acc_reopened := acc_reopened a;
         acc_resolved := acc_resolved a |}
  end.

(** [v.get("status", "OPEN") == "OPEN"] *)
Definition is_open (v : record) : bool :=
  py_eq (get_or v "status" (VStr "OPEN")) (VStr "OPEN").

Definition _reconcile (now : string) (existing detected_open : list record)
    : list record * diff :=
  let existing_by_id := by_id existing in
  let detected_by_id := by_id detected_open in
  let a := fold_left (visit now detected_by_id) existing (Acc [] false 0 0 0) in
  let a := fold_left (add_new now existing_by_id) detected_by_id a in
  let open_count := length (filter (fun v => is_open v = true) (updated a)) in
  (updated a,
   {| changed := acc_changed a;
      new := new_count a;
      reopened := acc_reopened a;
      resolved := acc_resolved a;
      open_count := open_count;
      resolved_count := length (updated a) - open_count |}).


(** *** Notions in which the properties of [_reconcile] are stated *)

(** The ids under which the records of a list are filed, in order. *)
Definition ids (vs : list record) : list string := omap id_key vs.

(** [v.get("status", "OPEN")], as both loops and [scan_once] read it. *)
Definition status_of (v : record) : value := get_or v "status" (VStr "OPEN").

(** The data model's invariant on an entry: [resolvedAt] is non-null iff
    [status == RESOLVED]. *)
Definition entry_ok (v : record) : Prop :=
  get v "resolvedAtIso" <> VNone <-> get v "status" = VStr "RESOLVED".

Definition has_id (v : record) : Prop := is_Some (id_key v).

(** The keys that the first loop may write: the stamps and the
    descriptive fields. *)
Definition STAMPS : list string :=
  ["firstSeenIso"; "lastSeenIso"; "status"; "resolvedAtIso"].

(** [e] is [old] after the first loop: all the other keys are as they
    were. *)
Definition same_entry (old e : record) : Prop :=
  forall k, k ∉ STAMPS ++ FIELDS -> e !! k = old !! k.




(** The ledger without the entries filed under [X]. *)
Definition without (X : string) (L : list record) : list record :=
  filter (fun e => id_key e <> Some X) L.

(** *** The two loops, entry by entry *)

(** One turn of the dict comprehension behind [by_id]. *)
Definition index_step (d : odict record) (v : record) : odict record :=
  match id_key v with
  | Some k => odict_set k v d
  | None => d
  end.

(** The test of [overwrite], and its effect on the entry alone. *)
Definition wants (d old : record) (k : string) : bool :=
  negb (is_none (get d k)) && negb (py_eq (get d k) (get old k)).

Definition ow (d old : record) (k : string) : record :=
  if wants d old k then <[k := get d k]> old else old.

(** The steps of [refresh] on the entry. *)
Definition backfill (now : string) (old : record) : record :=
  if is_none (get old "firstSeenIso")
  then <["firstSeenIso" := py_or (get old "createdAtIso") (VStr now)]> old
  else old.

Definition reopen_entry (old : record) : record :=
  <["resolvedAtIso" := VNone]> (<["status" := VStr "OPEN"]> old).

(** The entry that [refresh] returns for [old]. *)
Definition refreshed (now : string) (d old : record) : record :=
  let o := <["lastSeenIso" := VStr now]> (backfill now old) in
  fold_left (ow d) FIELDS
    (if py_eq (status_of old) (VStr "RESOLVED") then reopen_entry o else o).

(** The entry that [retire] returns for [old]. *)
Definition retired (now : string) (old : record) : record :=
  if py_eq (status_of old) (VStr "RESOLVED") then old
  else <["resolvedAtIso" := VStr now]> (<["status" := VStr "RESOLVED"]> old).

(** What the first loop appends for [old]: nothing when it has no id. *)
Definition touch (now : string) (det : odict record) (old : record) : option record :=
  match id_key old with
  | None => None
  | Some vid =>
      Some (match odict_get vid det with
            | Some d => refreshed now d old
            | None => retired now old
            end)
  end.

(** Whether the first loop counts [old] as reopened, as resolved. *)
Definition reopens (det : odict record) (old : record) : bool :=
  match id_key old with
  | None => false
  | Some vid => match odict_get vid det with
                | Some _ => py_eq (status_of old) (VStr "RESOLVED")
                | None => false
                end
  end.

Definition resolves (det : odict record) (old : record) : bool :=
  match id_key old with
  | None => false
  | Some vid => match odict_get vid det with
                | Some _ => false
                | None => negb (py_eq (status_of old) (VStr "RESOLVED"))
                end
  end.

(** What the second loop inserts for an item of [detected_by_id]. *)
Definition fresh_item (now : string) (ex : odict record) (kv : string * record)
    : option record :=
  match odict_get kv.1 ex with
  | Some _ => None
  | None => Some (new_item now kv.2)
  end.

(** The two parts of the ledger that [_reconcile] returns: the new items,
    last detected first, then the old entries in their order. *)
Definition news (now : string) (L D : list record) : list record :=
  reverse (omap (fresh_item now (by_id L)) (by_id D)).

Definition olds (now : string) (L D : list record) : list record :=
  omap (touch now (by_id D)) L.

(** The keys that [new_item] may write. *)
Definition NEW_KEYS : list string :=
  ["firstSeenIso"; "lastSeenIso"; "createdAtIso"; "read"; "status"; "resolvedAtIso"].


End Reconcile.

(** ** Text: a [str] as code points *)

Module Text.
Open Scope N_scope.

(** UTF-8 decoding.  A byte that is not part of a well-formed sequence is
    carried as the lone surrogate U+DC00 + byte, as Python's
    [surrogateescape] does, so that [encode] undoes [decode]. *)
Definition between (lo hi c : N) : bool := (lo <=? c) && (c <=? hi).

Definition cont (b : N) : bool := between 128 191 b.

Fixpoint decode (bs : list N) : list N :=
  match bs with
  | [] => []
  | b0 :: r0 =>
      if b0 <? 128 then b0 :: decode r0
      else
        match r0 with
        | b1 :: r1 =>
            if (194 <=? b0) && (b0 <? 224) && cont b1
            then ((b0 - 192) * 64 + (b1 - 128)) :: decode r1
            else
              match r1 with
              | b2 :: r2 =>
                  if (224 <=? b0) && (b0 <? 240) && cont b1 && cont b2
                     && (2048 <=? (b0 - 224) * 4096 + (b1 - 128) * 64 + (b2 - 128))
                     && negb (between 55296 57343
                                ((b0 - 224) * 4096 + (b1 - 128) * 64 + (b2 - 128)))
                  then ((b0 - 224) * 4096 + (b1 - 128) * 64 + (b2 - 128)) :: decode r2
                  else
                    match r2 with
                    | b3 :: r3 =>
                        if (240 <=? b0) && (b0 <? 245) && cont b1 && cont b2 && cont b3
                           && (65536 <=? (b0 - 240) * 262144 + (b1 - 128) * 4096
                                         + (b2 - 128) * 64 + (b3 - 128))
                           && ((b0 - 240) * 262144 + (b1 - 128) * 4096
                               + (b2 - 128) * 64 + (b3 - 128) <? 1114112)
                        then ((b0 - 240) * 262144 + (b1 - 128) * 4096
                              + (b2 - 128) * 64 + (b3 - 128)) :: decode r3
                        else (56320 + b0) :: decode r0
                    | [] => (56320 + b0) :: decode r0
                    end
              | [] => (56320 + b0) :: decode r0
              end
        | [] => [56320 + b0]
        end
  end.

Definition encode1 (c : N) : list N :=
  if c <? 128 then [c]
  else if c <? 2048 then [192 + c / 64; 128 + c mod 64]
  else if (56448 <=? c) && (c <? 56576) then [c - 56320]
  else if c <? 65536 then [224 + c / 4096; 128 + (c / 64) mod 64; 128 + c mod 64]
  else [240 + c / 262144; 128 + (c / 4096) mod 64; 128 + (c / 64) mod 64; 128 + c mod 64].

Definition codepoints (s : string) : list N :=
  decode (map N_of_ascii (list_ascii_of_string s)).

Definition of_codepoints (cs : list N) : string :=
  string_of_list_ascii (map ascii_of_N (flat_map encode1 cs)).

(** [c.isspace()], which is also what [\s] matches in a [str] pattern. *)
Definition is_space (c : N) : bool :=
  between 9 13 c || between 28 32 c || (c =? 133) || (c =? 160) || (c =? 5760)
  || between 8192 8202 c || between 8232 8233 c || (c =? 8239) || (c =? 8287)
  || (c =? 12288).

Definition is_upper (c : N) : bool := between 65 90 c.
Definition is_lower (c : N) : bool := between 97 122 c.

(** The lower-case mapping of one character, as the regex engine uses it
    under [re.I].  Exact on ASCII and on the two other characters that map
    into ASCII (U+0130 and U+212A); every other character is left as it is,
    which is enough to decide matches against ASCII patterns. *)
Definition tolower (c : N) : N :=
  if is_upper c then c + 32
  else if c =? 304 then 105
  else if c =? 8490 then 107
  else c.

(** [s.lower()], exact where the result has ASCII characters: U+0130 lowers
    to "i" followed by U+0307, U+212A to "k"; the other non-ASCII characters
    lower to non-ASCII characters and are left as they are. *)
Definition lower1 (c : N) : list N :=
  if is_upper c then [c + 32]
  else if c =? 304 then [105; 775]
  else if c =? 8490 then [107]
  else [c].

Definition lower (s : string) : string :=
  of_codepoints (flat_map lower1 (codepoints s)).

(** [s.strip()] *)
Fixpoint lstrip (cs : list N) : list N :=
  match cs with
  | c :: r => if is_space c then lstrip r else cs
  | [] => []
  end.

Definition strip (s : string) : string :=
  of_codepoints (rev (lstrip (rev (lstrip (codepoints s))))).

(** [needle in s] *)
Fixpoint prefix_of (p cs : list N) : bool :=
  match p, cs with
  | [], _ => true
  | a :: p', c :: cs' => (a =? c) && prefix_of p' cs'
  | _ :: _, [] => false
  end.

Fixpoint occurs (p cs : list N) : bool :=
  prefix_of p cs || match cs with [] => false | _ :: cs' => occurs p cs' end.

Definition contains (needle s : string) : bool :=
  occurs (codepoints needle) (codepoints s).

(** [s[:n]] *)
Definition slice_to (n : nat) (s : string) : string :=
  of_codepoints (take n (codepoints s)).

End Text.

(** ** Regular expressions: the fragment of [re] that the scanner's
    patterns use *)

Module Re.
Import Text.
Open Scope N_scope.

(** What [re.compile] raises ([re.error]), and [unsupported] for syntax
    outside the fragment: the parser never guesses. *)
Inductive error :=
| bad_character_range (this that : string)
| nothing_to_repeat
| multiple_repeat
| bad_repeat_interval
| missing_paren
| unbalanced_paren
| unterminated_set
| bad_escape
| unsupported.

Inductive item :=
| ILit (c : N)
| IRange (lo hi : N)
| ISpace.

Inductive re :=
| Eps
| Lit (c : N)
| Any
| In (negate : bool) (items : list item)
| Space
| Seq (r1 r2 : re)
| Alt (r1 r2 : re)
| Rep (lo : nat) (hi : option nat) (greedy : bool) (r : re).

(** *** Parsing ([sre_parse]) *)

Definition is_alnum (c : N) : bool :=
  between 48 57 c || is_upper c || is_lower c.

(** A token of the pattern: a character, or a backslash and the
    character after it. *)
Inductive token := TChar (c : N) | TEsc (c : N).

Definition next_token (s : list N) : option (error + token * list N) :=
  match s with
  | [] => None
  | 92 :: [] => Some (inl bad_escape)
  | 92 :: c :: s' => Some (inr (TEsc c, s'))
  | c :: s' => Some (inr (TChar c, s'))
  end.

Definition token_text (t : token) : string :=
  match t with
  | TChar c => of_codepoints [c]
  | TEsc c => of_codepoints [92; c]
  end.

(** The set member a token stands for inside [[...]] ([_class_escape]). *)
Definition class_code (t : token) : error + item :=
  match t with
  | TChar c => if c <? 128 then inr (ILit c) else inl unsupported
  | TEsc c =>
      if c =? 115 then inr ISpace
      else if is_alnum c || (128 <=? c) then inl unsupported
      else inr (ILit c)
  end.

(** The members of a set, after [[] and the optional [^]; stops after the
    closing bracket. *)
Fixpoint p_set (fuel : nat) (s : list N) (acc : list item)
    : error + list item * list N :=
  match fuel with
  | O => inl unsupported
  | S f =>
      match next_token s with
      | None => inl unterminated_set
      | Some (inl e) => inl e
      | Some (inr (this, s1)) =>
          match this, acc with
          | TChar 93, _ :: _ => inr (acc, s1)
          | _, _ =>
              match class_code this with
              | inl e => inl e
              | inr code1 =>
                  match s1 with
                  | 45 :: s2 =>
                      match next_token s2 with
                      | None => inl unterminated_set
                      | Some (inl e) => inl e
                      | Some (inr (TChar 93, s3)) => inr (acc ++ [code1; ILit 45], s3)
                      | Some (inr (that, s3)) =>
                          match class_code that with
                          | inl e => inl e
                          | inr code2 =>
                              match code1, code2 with
                              | ILit lo, ILit hi =>
                                  if hi <? lo
                                  then inl (bad_character_range (token_text this) (token_text that))
                                  else p_set f s3 (acc ++ [IRange lo hi])
                              | _, _ =>
                                  inl (bad_character_range (token_text this) (token_text that))
                              end
                          end
                      end
                  | _ => p_set f s1 (acc ++ [code1])
                  end
              end
          end
      end
  end.

Fixpoint digits (s : list N) (acc : option nat) : option nat * list N :=
  match s with
  | c :: s' =>
      if between 48 57 c
      then digits s' (Some (default 0%nat acc * 10 + N.to_nat (c - 48))%nat)
      else (acc, s)
  | [] => (acc, s)
  end.

(** The bounds of a repeat operator at the head of [s], if there is one. *)
Definition p_bounds (s : list N) : option (error + nat * option nat * list N) :=
  match s with
  | 42 :: s1 => Some (inr (0%nat, None, s1))
  | 43 :: s1 => Some (inr (1%nat, None, s1))
  | 63 :: s1 => Some (inr (0%nat, Some 1%nat, s1))
  | 123 :: s1 =>
      match digits s1 None with
      | (lo, 125 :: s2) =>
          match lo with
          | Some n => Some (inr (n, Some n, s2))
          | None => Some (inl unsupported)
          end
      | (lo, 44 :: s2) =>
          match digits s2 None with
          | (hi, 125 :: s3) =>
              match hi with
              | Some h =>
                  if (h <? default 0 lo)%nat then Some (inl bad_repeat_interval)
                  else Some (inr (default 0%nat lo, Some h, s3))
              | None => Some (inr (default 0%nat lo, None, s3))
              end
          | _ => Some (inl unsupported)
          end
      | _ => Some (inl unsupported)
      end
  | _ => None
  end.

(** The repeat operator that follows the atom [a], if any. *)
Definition p_quant (a : re) (s : list N) : error + re * list N :=
  match p_bounds s with
  | None => inr (a, s)
  | Some (inl e) => inl e
  | Some (inr (lo, hi, s1)) =>
      let '(greedy, s2) :=
        match s1 with
        | 63 :: s2 => (false, s2)
        | _ => (true, s1)
        end in
      match s2 with
      | 43 :: _ => if greedy then inl unsupported else inl multiple_repeat
      | _ =>
          match p_bounds s2 with
          | Some _ => inl multiple_repeat
          | None => inr (Rep lo hi greedy a, s2)
          end
      end
  end.

(** [_parse_sub] (alternatives), [_parse] (a sequence of repeated atoms)
    and one atom. *)
Fixpoint p_sub (fuel : nat) (s : list N) : error + re * list N :=
  match fuel with
  | O => inl unsupported
  | S f =>
      match p_seq f s with
      | inl e => inl e
      | inr (r, 124 :: s1) =>
          match p_sub f s1 with
          | inl e => inl e
          | inr (r', s2) => inr (Alt r r', s2)
          end
      | inr (r, s1) => inr (r, s1)
      end
  end
with p_seq (fuel : nat) (s : list N) : error + re * list N :=
  match fuel with
  | O => inl unsupported
  | S f =>
      match s with
      | [] => inr (Eps, s)
      | 124 :: _ | 41 :: _ => inr (Eps, s)
      | c :: s1 =>
          match p_atom f c s1 with
          | inl e => inl e
          | inr (a, s2) =>
              match p_quant a s2 with
              | inl e => inl e
              | inr (q, s3) =>
                  match p_seq f s3 with
                  | inl e => inl e
                  | inr (r, s4) => inr (Seq q r, s4)
                  end
              end
          end
      end
  end
with p_atom (fuel : nat) (c : N) (s1 : list N) : error + re * list N :=
  match fuel with
  | O => inl unsupported
  | S f =>
      match c with
      | 92 =>
          match s1 with
          | [] => inl bad_escape
          | e :: s2 =>
              if e =? 115 then inr (Space, s2)
              else if is_alnum e || (128 <=? e) then inl unsupported
              else inr (Lit e, s2)
          end
      | 91 =>
          let '(negate, s2) :=
            match s1 with
            | 94 :: s2 => (true, s2)
            | _ => (false, s1)
            end in
          match p_set (S (length s2)) s2 [] with
          | inl e => inl e
          | inr (items, s3) => inr (In negate items, s3)
          end
      | 40 =>
          match s1 with
          | 63 :: _ => inl unsupported
          | _ =>
              match p_sub f s1 with
              | inl e => inl e
              | inr (r, 41 :: s2) => inr (r, s2)
              | inr _ => inl missing_paren
              end
          end
      | 46 => inr (Any, s1)
      | 42 | 43 | 63 => inl nothing_to_repeat
      | 123 | 94 | 36 => inl unsupported
      | _ => if c <? 128 then inr (Lit c, s1) else inl unsupported
      end
  end.

(** [re.compile(pattern)] *)
Definition compile (pattern : string) : error + re :=
  let s := codepoints pattern in
  match p_sub (3 * S (length s)) s with
  | inl e => inl e
  | inr (r, []) => inr r
  | inr (_, _ :: _) => inl unbalanced_paren
  end.

(** *** Matching: backtracking, first match in the order of the pattern *)

(** The characters that make one of [lo..hi] after lower-casing. *)
Definition in_image (lo hi y : N) : bool :=
  (between lo hi y && negb (is_upper y)) || (is_lower y && between lo hi (y - 32)).

Definition range_matches (ic : bool) (lo hi x : N) : bool :=
  if ic
  then let y := tolower x in
       in_image lo hi y || ((y =? 305) && in_image lo hi 105)
       || ((y =? 383) && in_image lo hi 115)
  else between lo hi x.

Definition item_matches (ic : bool) (x : N) (it : item) : bool :=
  match it with
  | ILit c => range_matches ic c c x
  | IRange lo hi => range_matches ic lo hi x
  | ISpace => is_space x
  end.

Definition matcher := list N -> (list N -> option (list N)) -> option (list N).

Definition one (p : N -> bool) : matcher :=
  fun s k => match s with
             | x :: s' => if p x then k s' else None
             | [] => None
             end.

Definition pred_bound (hi : option nat) : option nat :=
  match hi with Some h => Some (Nat.pred h) | None => None end.

(** [body{lo,hi}]; a turn past [lo] that takes no character ends the loop. *)
Fixpoint rep (body : matcher) (fuel lo : nat) (hi : option nat) (greedy : bool)
    : matcher :=
  fun s k =>
    match fuel with
    | O => None
    | S f =>
        match lo with
        | S lo' => body s (fun s' => rep body f lo' (pred_bound hi) greedy s' k)
        | O =>
            match hi with
            | Some O => k s
            | _ =>
                let again :=
                  body s (fun s' => if (length s' <? length s)%nat
                                    then rep body f O (pred_bound hi) greedy s' k
                                    else None) in
                if greedy
                then match again with Some x => Some x | None => k s end
                else match k s with Some x => Some x | None => again end
            end
        end
    end.

Fixpoint m (ic : bool) (r : re) {struct r} : matcher :=
  match r with
  | Eps => fun s k => k s
  | Lit c => one (range_matches ic c c)
  | Any => one (fun x => negb (x =? 10))
  | In negate items => one (fun x => xorb negate (existsb (item_matches ic x) items))
  | Space => one is_space
  | Seq a b => fun s k => m ic a s (fun s' => m ic b s' k)
  | Alt a b => fun s k => match m ic a s k with
                          | Some x => Some x
                          | None => m ic b s k
                          end
  | Rep lo hi greedy a => fun s k => rep (m ic a) (S (length s) + lo) lo hi greedy s k
  end.

(** The text of the leftmost match ([group(0)]). *)
Fixpoint search_from (ic : bool) (r : re) (s : list N) : option (list N) :=
  match m ic r s Some with
  | Some rest => Some (take (length s - length rest) s)
  | None =>
      match s with
      | [] => None
      | _ :: s' => search_from ic r s'
      end
  end.

(** [re.search(pattern, text, flags)], where [ic] is [re.I]: an error of
    [re.compile], or [m.group(0)] for the match found. *)
Definition search (pattern : string) (ic : bool) (text : string)
    : error + option string :=
  match compile pattern with
  | inl e => inl e
  | inr r => inr (of_codepoints <$> search_from ic r (codepoints text))
  end.

End Re.
(** ** Exceptions *)

(** The exceptions that travel through the scanner; all of them are
    instances of [Exception]. *)
Inductive exn :=
| re_error (e : Re.error)
| type_error (msg : string)
| os_error (msg : string)
| service_error (msg : string).

Inductive result (A : Type) :=
| Ok (a : A)
| Raise (e : exn).
Arguments Ok {A} a.
Arguments Raise {A} e.

#[global] Instance result_ret : MRet result := fun A a => Ok a.
#[global] Instance result_bind : MBind result := fun A B f m =>
  match m with
  | Ok a => f a
  | Raise e => Raise e
  end.

(** ** Policies *)

Module Policy.
(** The dict that [_load_policies_from_disk] and [add_policy] build. *)
Record t := Make {
  id : string;
  name : string;
  description : string;
  version : string;
  updatedAtIso : string;
  text : string
}.
End Policy.

(** ** Detection pipeline *)

Module Detect.

(** [re.search(pattern, text, flags)] as the scanner uses it: for
    [group(0)] of the match, or [None]. *)
Definition re_search (pattern : string) (ic : bool) (text : string)
    : result (option string) :=
  match Re.search pattern ic text with
  | inl e => Raise (re_error e)
  | inr found => Ok found
  end.

(** The module constant [RETENTION_REGEX] (a raw string). *)
Definition RETENTION_REGEX : string :=
  "(retain(ing)?\s+forever|retain(ing)?\s+indefinitely|keep\s+forever|stay\s+forever|cannot\s+delete|can\s*NOT\s+.*delete|no\s+chance\s+to\s+delete)".

(** The raw strings that [_heuristic_violations] passes to [re.search]. *)
Definition EMAIL_PATTERN : string := "[A-Z0-9._%+-]+@[A-Z0-9.-]+\\.[A-Z]{2,}".
Definition PHONE_PATTERN : string := "\\+?\\d[\\d \\-()]{7,}\\d".
Definition TOKEN_PATTERN : string := "sk_live_[A-Za-z0-9_\\-]{10,}".
Definition RETENTION_PATTERN : string :=
  "(retain(ing)?\\s+forever|retain(ing)?\\s+indefinitely|keep\\s+forever|stay\\s+forever|cannot\\s+delete|can\\s*NOT\\s+.*delete|no\\s+chance\\s+to\\s+delete)".

(** [bool(m)] for the result of [re.search] *)
Definition found (m : option string) : bool :=
  match m with Some _ => true | None => false end.

(** The local function [pick] of [_heuristic_violations]. *)
Definition pick (policy_ids : list string) (pid fallback : string) : string :=
  if bool_decide (pid ∈ policy_ids) then pid else fallback.

(** [{v.get("id") for v in existing_open if v.get("id")}]: building the set
    hashes every member. *)
Fixpoint id_set (vs : list record) : result (list value) :=
  match vs with
  | [] => Ok []
  | v :: vs' =>
      if truthy (get v "id")
      then match get v "id" with
           | VList _ => Raise (type_error "unhashable type: 'list'")
           | VDict _ => Raise (type_error "unhashable type: 'dict'")
           | i => ids ← id_set vs'; Ok (i :: ids)
           end
      else id_set vs'
  end.

(** A candidate as the four rules write it down. *)
Definition candidate (id title summary policyId severity rule evidence
    recommendation : string) : record :=
  list_to_map
    [("id", VStr id);
     ("title", VStr title);
     ("summary", VStr summary);
     ("sourceId", VStr "google-drive");
     ("policyId", VStr policyId);
     ("severity", VStr severity);
     ("details",
      VDict [("rule", VStr rule);
             ("location", VStr "Local doc (pretend Drive)");
             ("evidence", VStr evidence);
             ("recommendation", VStr recommendation)])].

Definition _heuristic_violations (doc_text : string) (policies : list Policy.t)
    (existing_open : list record) : result (list record) :=
  email ← re_search EMAIL_PATTERN true doc_text;
  phone ← re_search PHONE_PATTERN false doc_text;
  let anyone_link := Text.contains "anyone with the link" (Text.lower doc_text) in
  token ← re_search TOKEN_PATTERN false doc_text;
  retention ← re_search RETENTION_PATTERN true doc_text;
  let policy_ids := Policy.id <$> policies in
  existing_ids ← id_set existing_open;
  let out := [] in
  let out :=
    if found email || found phone
    then out ++
         [candidate
            (if existsb (py_eq (VStr "b-001")) existing_ids then "b-001" else "b-001")
            "Possible personal data in document"
            "Detected patterns that look like email/phone."
            (pick policy_ids "gdpr" "gdpr")
            "medium"
            "Avoid including personal data in broadly accessible documents."
            ("Email: " +:+ default "n/a" email +:+ "; Phone: " +:+ default "n/a" phone)
            "Redact personal data and restrict access."]
    else out in
  let out :=
    if anyone_link
    then out ++
         [candidate "b-002"
            "Document appears to be shared publicly"
            "Found text indicating “Anyone with the link”."
            (pick policy_ids "access-control" "gdpr")
            "high"
            "Access control: do not share personal data publicly."
            "Matched phrase: “Anyone with the link”."
            "Restrict sharing and move content to private folder."]
    else out in
  let out :=
    match token with
    | Some token =>
        out ++
        [candidate "b-003"
           "Secret/token-like string found"
           "Detected a token-like pattern in the document."
           (pick policy_ids "secrets-handling" "gdpr")
           "high"
           "Secrets handling: never store tokens in shared docs."
           ("Matched pattern: " +:+ Text.slice_to 12 token +:+ "…")
           "Rotate token and remove from document."]
    | None => out
    end in
  let out :=
    match retention with
    | Some retention =>
        out ++
        [candidate "b-004"
           "Indefinite retention / no deletion mentioned"
           "Document suggests users cannot delete their data or data is retained forever."
           (pick policy_ids "data-retention" "gdpr")
           "high"
           "Data retention: users must be able to request deletion; indefinite retention is not allowed by default."
           ("Matched phrase: “" +:+ retention +:+ "”")
           "Add deletion process and set retention periods; remove 'forever' retention statements."]
    | None => out
    end in
  Ok out.

(** What the call to the chat-completion service comes to: the client or
    the call raises, or the call returns a message whose content
    [json.loads] parses or rejects. *)
Inductive reply :=
| Raises (e : exn)
| Unparseable
| Parsed (v : value).

(** [d.get(k, dflt)] on a dict inside a value *)
Fixpoint dict_get (kvs : list (string * value)) (k : string) (dflt : value) : value :=
  match kvs with
  | [] => dflt
  | (k', v) :: kvs' => if decide (k = k') then v else dict_get kvs' k dflt
  end.

(** [_openai_violations], from the reply of the service on: the shapes
    that are not the expected ones come to an empty list, the items that
    are not dicts are skipped. *)
Definition _openai_violations
    (service : string -> list Policy.t -> list record -> reply)
    (doc_text : string) (policies : list Policy.t) (existing_open : list record)
    : result (list record) :=
  match service doc_text policies existing_open with
  | Raises e => Raise e
  | Unparseable => Ok []
  | Parsed parsed =>
      let raw_items :=
        match parsed with
        | VDict kvs => dict_get kvs "violations" (VList [])
        | VList xs => VList xs
        | _ => VList []
        end in
      let raw_items :=
        match raw_items with
        | VList xs => xs
        | _ => []
        end in
      Ok (omap (fun v => match v with
                         | VDict kvs => Some (list_to_map kvs)
                         | _ => None
                         end) raw_items)
  end.

(** [not api_key] for [os.getenv("OPENAI_API_KEY")] *)
Definition no_key (api_key : option string) : bool :=
  match api_key with
  | None => true
  | Some k => bool_decide (k = "")
  end.

Definition _analyze (api_key : option string)
    (service : string -> list Policy.t -> list record -> reply)
    (doc_text : string) (policies : list Policy.t) (existing_open : list record)
    : result (list record) :=
  if no_key api_key
  then _heuristic_violations doc_text policies existing_open
  else
    match _openai_violations service doc_text policies existing_open with
    | Ok llm => Ok llm
    | Raise e => _heuristic_violations doc_text policies existing_open
    end.

End Detect.
(** ** Scan orchestrator *)

Module Scan.
Import Reconcile.

(** [ScanState] *)
Record ScanState := MkScanState {
  sources : list record;
  policies : list Policy.t;
  violations : list record;
  last_scan_iso : option string;
  last_scan_error : option string;
  _doc_mtime : option Z;
  _policies_mtime : option Z
}.

(** [ScanState()] *)
Definition initial : ScanState := MkScanState [] [] [] None None None None.

(** A file [<stem>.md] of [POLICIES_DIR]: its modification time and what
    [read_text] gives ([None] when the read fails). *)
Record policy_file := PolicyFile {
  stem : string;
  mtime : Z;
  content : option string
}.

(** What a call of [scan_once] finds outside the process: the directory of
    [scanner.py], the policy files ([None] when [POLICIES_DIR] does not
    exist), the monitored document with its modification time ([None] when
    it does not exist), the environment variable [OPENAI_API_KEY], the
    chat-completion service (by the number of analyses so far and by what
    it is sent) and the wall clock (by the number of readings so far). *)
Record world := World {
  here : string;
  policies_dir : option (list policy_file);
  document : option (Z * string);
  api_key : option string;
  service : nat -> string -> list Policy.t -> list record -> Detect.reply;
  clock : nat -> string
}.

(** [str(GOOGLE_DRIVE_DOC)] *)
Definition GOOGLE_DRIVE_DOC (w : world) : string :=
  here w +:+ "/data/sources/google_drive/user_journey.txt".

(** The scanner at run time: the shared state, and two counters that the
    program does not keep: the readings of the clock and the calls of
    [_analyze] so far. *)
Record run := Run {
  state : ScanState;
  ticks : nat;
  analyses : nat
}.

(** Computations on the shared state that may raise.  One thread is
    modelled here: taking and releasing [self._lock] has no effect. *)
Definition M (A : Type) : Type := run -> result A * run.

#[global] Instance M_ret : MRet M := fun A a r => (Ok a, r).

#[global] Instance M_bind : MBind M := fun A B f m r =>
  match m r with
  | (Ok a, r') => f a r'
  | (Raise e, r') => (Raise e, r')
  end.

Definition ret {A} (a : A) : M A := mret a.

(** [try: m except Exception as e: h e] *)
Definition try_except {A} (m : M A) (h : exn -> M A) : M A :=
  fun r => match m r with
           | (Ok a, r') => (Ok a, r')
           | (Raise e, r') => h e r'
           end.

Definition lift {A} (x : result A) : M A := fun r => (x, r).

Definition read : M ScanState := fun r => (Ok (state r), r).

Definition write (f : ScanState -> ScanState) : M unit :=
  fun r => (Ok tt, Run (f (state r)) (ticks r) (analyses r)).

(** [now_iso()] *)
Definition now_iso (w : world) : M string :=
  fun r => (Ok (clock w (ticks r)), Run (state r) (S (ticks r)) (analyses r)).

(** [self._analyze(...)] *)
Definition analyze (w : world) (doc_text : string) (policies : list Policy.t)
    (existing_open : list record) : M (list record) :=
  fun r =>
    (Detect._analyze (api_key w) (service w (analyses r)) doc_text policies existing_open,
     Run (state r) (ticks r) (S (analyses r))).

Definition set_policies (ps : list Policy.t) (latest : option Z) (s : ScanState)
    : ScanState :=
  MkScanState (sources s) ps (violations s) (last_scan_iso s) (last_scan_error s)
              (_doc_mtime s) latest.

Definition set_last_scan_error (e : option string) (s : ScanState) : ScanState :=
  MkScanState (sources s) (policies s) (violations s) (last_scan_iso s) e
              (_doc_mtime s) (_policies_mtime s).

Definition set_last_scan_iso (t : option string) (s : ScanState) : ScanState :=
  MkScanState (sources s) (policies s) (violations s) t (last_scan_error s)
              (_doc_mtime s) (_policies_mtime s).

Definition set_doc_mtime (t : option Z) (s : ScanState) : ScanState :=
  MkScanState (sources s) (policies s) (violations s) (last_scan_iso s)
              (last_scan_error s) t (_policies_mtime s).

Definition set_violations (vs : list record) (s : ScanState) : ScanState :=
  MkScanState (sources s) (policies s) vs (last_scan_iso s) (last_scan_error s)
              (_doc_mtime s) (_policies_mtime s).

(** [_policies_max_mtime] *)
Definition _policies_max_mtime (w : world) : option Z :=
  match policies_dir w with
  | None => None
  | Some files =>
      match mtime <$> files with
      | [] => None
      | t :: ts => Some (fold_left Z.max ts t)
      end
  end.

(** [s.replace(a, b)] for one-character [a] and [b] *)
Definition replace (a b : ascii) (s : string) : string :=
  string_of_list_ascii
    (map (fun c => if bool_decide (c = a) then b else c) (list_ascii_of_string s)).

(** [s.title()], on ASCII letters; the other characters are taken to have
    no case. *)
Fixpoint title_from (after_letter : bool) (cs : list N) : list N :=
  match cs with
  | [] => []
  | c :: cs' =>
      if Text.is_upper c
      then (if after_letter then c + 32 else c)%N :: title_from true cs'
      else if Text.is_lower c
      then (if after_letter then c else c - 32)%N :: title_from true cs'
      else c :: title_from false cs'
  end.

Definition title (s : string) : string :=
  Text.of_codepoints (title_from false (Text.codepoints s)).

(** The dict built for one policy file; the clock is read before the
    file is. *)
Definition load_policy (w : world) (p : policy_file) : M Policy.t :=
  t ← now_iso w;
  text ← lift (match content p with
                | Some text => Ok text
                | None => Raise (os_error (stem p +:+ ".md"))
                end);
  ret (Policy.Make (replace "_" "-" (stem p))
                   (title (replace "_" " " (stem p)))
                   ("Loaded from disk: " +:+ stem p +:+ ".md")
                   "1.0" t text).

Fixpoint load_policies (w : world) (files : list policy_file) : M (list Policy.t) :=
  match files with
  | [] => ret []
  | p :: files' =>
      (x ← load_policy w p;
       xs ← load_policies w files';
       ret (x :: xs))
  end.

(** [p.name] of a file that [glob("*.md")] finds. *)
Definition file_name (p : policy_file) : string := stem p +:+ ".md".

(** [sorted(POLICIES_DIR.glob("*.md"))]: the paths are in one directory,
    so their order is that of the file names, suffix included. *)
Definition name_le (p q : policy_file) : Prop :=
  String.leb (file_name p) (file_name q) = true.

#[global] Instance name_le_dec p q : Decision (name_le p q) :=
  decide (String.leb (file_name p) (file_name q) = true).

Definition sorted (files : list policy_file) : list policy_file :=
  merge_sort name_le files.

Definition _load_policies_from_disk (w : world) (force : bool) : M bool :=
  st ← read;
  let latest := _policies_max_mtime w in
  let unchanged :=
    match _policies_mtime st, latest with
    | Some known, Some latest => (latest <=? known)%Z
    | _, _ => false
    end in
  if negb force && unchanged then ret false
  else
    (policies ← match policies_dir w with
                 | Some files => load_policies w (sorted files)
                 | None => ret []
                 end;
     write (set_policies policies latest);;
     ret true).

Definition scan_once (w : world) (force : bool) : M unit :=
  policies_changed ← try_except (_load_policies_from_disk w false)
                                 (fun _ => ret false);
  match document w with
  | None =>
      (write (set_last_scan_error
                (Some ("Missing source file: " +:+ GOOGLE_DRIVE_DOC w)));;
       t ← now_iso w;
       write (set_last_scan_iso (Some t)))
  | Some (mtime, content) =>
      (st ← read;
       let doc_changed :=
         match _doc_mtime st with
         | None => true
         | Some known => (known <? mtime)%Z
         end in
       if negb force && negb policies_changed && negb doc_changed then ret tt
       else
         (write (set_doc_mtime (Some mtime));;
          let existing := violations st in
          let existing_open := filter (fun v => is_open v = true) existing in
          let doc_text := Text.strip content in
          st ← read;
          detected_open ← analyze w doc_text (policies st) existing_open;
          now ← now_iso w;
          let updated := (_reconcile now existing detected_open).1 in
          t ← now_iso w;
          write (fun s => set_last_scan_error None
                            (set_last_scan_iso (Some t) (set_violations updated s)))))
  end.

(** *** Notions in which the properties of [scan_once] are stated *)

(** The first statement of [scan_once]: the reload of the policies, with
    its [except] clause. *)
Definition reload (w : world) : M bool :=
  try_except (_load_policies_from_disk w false) (fun _ => ret false).

(** The test that lets [_load_policies_from_disk] return early. *)
Definition unchanged (w : world) (s : ScanState) : bool :=
  match _policies_mtime s, _policies_max_mtime w with
  | Some known, Some latest => (latest <=? known)%Z
  | _, _ => false
  end.

(** Every policy file can be read. *)
Definition all_readable (files : list policy_file) : bool :=
  forallb (fun p => bool_decide (is_Some (content p))) files.

Definition readable (w : world) : bool :=
  match policies_dir w with
  | Some files => all_readable (sorted files)
  | None => true
  end.

(** A state on which the reload finds nothing new: the time stamps say
    so, or the files cannot be read and the [except] clause says so. *)
Definition calm (w : world) (s : ScanState) : Prop :=
  unchanged w s = true \/ readable w = false.

(** The test [doc_changed] of [scan_once]. *)
Definition doc_changed (mtime : Z) (s : ScanState) : bool :=
  match _doc_mtime s with
  | None => true
  | Some known => (known <? mtime)%Z
  end.

(** Two states that differ in the policies and their time stamp at most. *)
Definition same_but_policies (s s' : ScanState) : Prop :=
  sources s' = sources s /\ violations s' = violations s /\
  last_scan_iso s' = last_scan_iso s /\ last_scan_error s' = last_scan_error s /\
  _doc_mtime s' = _doc_mtime s.

End Scan.

(** ** Scan cycles at once *)

Module Cycle.

(** The threads that call [scan_once]: the loop of [start_background] and
    the requests to [/api/scan], of which the server may run any number at
    a time. *)
Inductive thread := Background | Api (n : nat).

#[global] Instance thread_eq_dec : EqDecision thread.
Proof. solve_decision. Defined.

(** Where a thread stands in [scan_once]. *)
Inductive pc :=
| Idle          (* not in a cycle, or waiting for the lock of line 129 *)
| Gate          (* lines 130-151, inside [with self._lock] *)
| Detecting     (* lines 154-184: [_analyze], no lock held *)
| Reconciling   (* line 185: [_reconcile], no lock held *)
| Reconciled    (* waiting for the lock of line 187 *)
| Committing    (* lines 188-190, inside [with self._lock] *)
| Failed        (* the loop caught an exception, waiting for the lock of line 119 *)
| Recording.    (* line 120, inside [with self._lock] *)

Record config := Config {
  lock : option thread;
  pcs : thread -> pc
}.

Definition at_ (t : thread) (c : config) : pc := pcs c t.

Definition move (t : thread) (p : pc) (l : option thread) (c : config) : config :=
  Config l (fun t' => if decide (t' = t) then p else pcs c t').

(** One step of one thread.  [self._lock] is a [threading.Lock]: a thread
    enters a [with self._lock] block only when no thread holds the lock
    (it waits otherwise), and leaving the block, by its end or by a
    [return], frees the lock. *)
Inductive step : config -> config -> Prop :=
| enter t c :
    at_ t c = Idle -> lock c = None -> step c (move t Gate (Some t) c)
| skip t c :
    at_ t c = Gate -> step c (move t Idle None c)
| due t c :
    at_ t c = Gate -> step c (move t Detecting None c)
| detected t c :
    at_ t c = Detecting -> step c (move t Reconciling (lock c) c)
| detection_raises_api n c :
    at_ (Api n) c = Detecting -> step c (move (Api n) Idle (lock c) c)
| detection_raises_background c :
    at_ Background c = Detecting -> step c (move Background Failed (lock c) c)
| reconciled t c :
    at_ t c = Reconciling -> step c (move t Reconciled (lock c) c)
| commit t c :
    at_ t c = Reconciled -> lock c = None -> step c (move t Committing (Some t) c)
| committed t c :
    at_ t c = Committing -> step c (move t Idle None c)
| record c :
    at_ Background c = Failed -> lock c = None ->
    step c (move Background Recording (Some Background) c)
| recorded c :
    at_ Background c = Recording -> step c (move Background Idle None c).

Definition start : config := Config None (fun _ => Idle).

Inductive reachable : config -> Prop :=
| reach_start : reachable start
| reach_step c c' : reachable c -> step c c' -> reachable c'.

(** Inside one of the [with self._lock] blocks. *)
Definition locked (p : pc) : bool :=
  match p with
  | Gate | Committing | Recording => true
  | _ => false
  end.

(** The lock is held by a thread exactly when that thread is inside one of
    the [with self._lock] blocks. *)
Definition lock_inv (c : config) : Prop :=
  forall t, locked (at_ t c) = true <-> lock c = Some t.

(** A thread that goes from the gate to [_reconcile]. *)
Definition to_reconcile (t : thread) (c : config) : config :=
  move t Reconciling None
    (move t Detecting None (move t Gate (Some t) c)).

End Cycle.
(** ** A quiet turn of the first loop of [_reconcile] *)

Module Ledger.
Import Reconcile.

(** What the first loop appends for [old] when it raises no flag: the
    seen-stamps move on a detected entry, the others are as they were. *)
Definition seen (now : string) (det : odict record) (old : record) : option record :=
  match id_key old with
  | None => None
  | Some vid =>
      Some (match odict_get vid det with
            | Some _ => <["lastSeenIso" := VStr now]> (backfill now old)
            | None => old
            end)
  end.

End Ledger.

(** ** The flags that [_openai_violations] writes into its prompt *)

Module Prompt.
Import Detect.

(** The raw strings of lines 421 and 422: one backslash each. *)
Definition TOKEN_REGEX : string := "sk_live_[A-Za-z0-9_\-]{10,}".
Definition EMAIL_REGEX : string := "[A-Z0-9._%+-]+@[A-Z0-9.-]+\.[A-Z]{2,}".

(** The four lines under [FORCED TRIGGERS]. *)
Record triggers := Triggers {
  doc_has_retention_phrase : bool;
  doc_has_anyone_link : bool;
  doc_has_token : bool;
  doc_has_email : bool
}.

Definition forced_triggers (doc_text : string) : result triggers :=
  retention ← re_search RETENTION_REGEX true doc_text;
  let anyone_link := Text.contains "anyone with the link" (Text.lower doc_text) in
  token ← re_search TOKEN_REGEX false doc_text;
  email ← re_search EMAIL_REGEX true doc_text;
  Ok (Triggers (found retention) anyone_link (found token) (found email)).

(** *** Notions in which the properties of the flags are stated *)





(** A character of the set [[A-Za-z0-9_\-]]. *)
Definition token_char (c : N) : bool :=
  (Re.is_alnum c || (c =? 95) || (c =? 45))%N.

End Prompt.

(** ** The other methods of [Scanner] *)

Module Scanner.
Import Reconcile Scan.

Definition set_sources (xs : list record) (s : ScanState) : ScanState :=
  MkScanState xs (policies s) (violations s) (last_scan_iso s) (last_scan_error s)
              (_doc_mtime s) (_policies_mtime s).

Definition set_policy_list (ps : list Policy.t) (s : ScanState) : ScanState :=
  MkScanState (sources s) ps (violations s) (last_scan_iso s) (last_scan_error s)
              (_doc_mtime s) (_policies_mtime s).

(** [_init_sources] *)
Definition _init_sources (w : world) : M unit :=
  write (set_sources
           [list_to_map [("id", VStr "google-drive");
                         ("name", VStr "Google Drive");
                         ("description", VStr "Local .doc (pretend Drive)");
                         ("path", VStr (GOOGLE_DRIVE_DOC w))]]).

(** [Scanner.__init__], on the state it is given.  The lock, the thread
    slot and the stop event are created here; they hold no data. *)
Definition __init__ (w : world) : M unit :=
  _init_sources w;;
  _load_policies_from_disk w true;;
  scan_once w true.

(** [add_policy]; [seconds] is [int(time.time())] as read in this call. *)
Definition add_policy (w : world) (seconds : Z) (name text : string) : M Policy.t :=
  let policy_id := "uploaded-" +:+ pretty seconds in
  t ← now_iso w;
  let p := Policy.Make policy_id name "Uploaded via API (mock)" "1.0" t text in
  write (fun s => set_policy_list (p :: policies s) s);;
  ret p.

(** [delete_policy] *)
Definition delete_policy (policy_id : string) : M bool :=
  st ← read;
  let before := length (policies st) in
  write (fun s => set_policy_list
                    (filter (fun p => Policy.id p <> policy_id) (policies s)) s);;
  st ← read;
  ret (negb (Nat.eqb (length (policies st)) before)).

(** The thread that [start_background] starts.  [str] is [str(e)] for the
    exceptions; [turn] is one pass through the body of the [while], and
    [loop] runs a pass on each of the surroundings that the thread finds
    until the stop event is set. *)
Section background.
Variable str : exn -> string.

Definition turn (w : world) : M unit :=
  try_except (scan_once w false)
             (fun e => write (set_last_scan_error (Some (str e)))).

Fixpoint loop (ws : list world) : M unit :=
  match ws with
  | [] => ret tt
  | w :: ws' => (turn w;; loop ws')
  end.

End background.

End Scanner.

(** ** The endpoints of [app.py] *)

Module App.
Import Reconcile Scan.

(** What a view function may raise: Flask answers 500. *)
Inductive raised :=
| attribute_error (msg : string)
| scanner_error (e : exn).

(** A view function that answers with a body of type [A] and a status
    code, or raises. *)
Definition view (A : Type) : Type := run -> (raised + A * nat) * run.

(** [create_app], as far as the scanner goes: a fresh [ScanState] and the
    constructor of [Scanner] on it.  The thread of [start_background] is
    started after that. *)
Definition create_app (w : world) : result unit * run :=
  Scanner.__init__ w (Run initial 0 0).

(** [if source_id: items = [v for v in items if v.get(key) == source_id]] *)
Definition narrow (key : string) (param : option string) (items : list record)
    : list record :=
  match param with
  | Some x =>
      if bool_decide (x = "") then items
      else filter (fun v => py_eq (get v key) (VStr x) = true) items
  | None => items
  end.

(** [GET /api/violations] with the query parameters [sourceId] and
    [policyId] ([None] when absent). *)
Definition violations (source_id policy_id : option string)
    : view (list record) :=
  fun r =>
    let items := Scan.violations (state r) in
    let items := narrow "sourceId" source_id items in
    let items := narrow "policyId" policy_id items in
    (inr (items, 200), r).

(** [POST /api/scan] *)
Definition trigger_scan (w : world) : view value :=
  fun r =>
    match scan_once w true r with
    | (Ok _, r') => (inr (VDict [("status", VStr "ok")], 200), r')
    | (Raise e, r') => (inl (scanner_error e), r')
    end.

(** [type(v).__name__] *)
Definition type_name (v : value) : string :=
  match v with
  | VNone => "NoneType"
  | VBool _ => "bool"
  | VInt _ => "int"
  | VFloat _ _ => "float"
  | VStr _ => "str"
  | VList _ => "list"
  | VDict _ => "dict"
  end.

(** [data.get(key)] on what [request.get_json(silent=True) or {}] gave *)
Definition field (data : value) (key : string) : raised + value :=
  match data with
  | VDict kvs => inr (Detect.dict_get kvs key VNone)
  | _ => inl (attribute_error
                ("'" +:+ type_name data +:+ "' object has no attribute 'get'"))
  end.

(** [POST /api/policies]; [body] is what [request.get_json(silent=True)]
    returns: [None] when the body is not JSON. *)
Definition upload_policy (w : world) (seconds : Z) (body : option value)
    : view Policy.t :=
  fun r =>
    let data := py_or (default VNone body) (VDict []) in
    match field data "name" with
    | inl e => (inl e, r)
    | inr n =>
        let name := Text.strip (py_str (py_or n (VStr ""))) in
        let name := if bool_decide (name = "") then "Uploaded policy" else name in
        match field data "text" with
        | inl e => (inl e, r)
        | inr t =>
            let text := Text.strip (py_str (py_or t (VStr ""))) in
            match Scanner.add_policy w seconds name text r with
            | (Ok created, r') => (inr (created, 201), r')
            | (Raise e, r') => (inl (scanner_error e), r')
            end
        end
    end.

(** [DELETE /api/policies/<policy_id>] *)
Definition delete_policy (policy_id : string) : view bool :=
  fun r =>
    match Scanner.delete_policy policy_id r with
    | (Ok ok, r') => (inr (ok, 200), r')
    | (Raise e, r') => (inl (scanner_error e), r')
    end.

End App.

(** ** The service as a sequence of calls *)

Module Service.
Import Reconcile Scan.

(** The calls that change the scan state, one at a time: the constructor,
    a pass of the background thread, and the three requests that write. *)
Inductive call :=
| Construct (w : world)
| Pass (w : world)
| TriggerScan (w : world)
| UploadPolicy (w : world) (seconds : Z) (body : option value)
| DeletePolicy (policy_id : string).

Section calls.
Variable str : exn -> string.

Definition after (r : run) (c : call) : run :=
  match c with
  | Construct w => (Scanner.__init__ w r).2
  | Pass w => (Scanner.turn str w r).2
  | TriggerScan w => (App.trigger_scan w r).2
  | UploadPolicy w seconds body => (App.upload_policy w seconds body r).2
  | DeletePolicy policy_id => (App.delete_policy policy_id r).2
  end.

Definition replay (cs : list call) (r : run) : run := fold_left after cs r.

End calls.

(** The surroundings that a call finds, when it looks at them. *)
Definition world_of (c : call) : option world :=
  match c with
  | Construct w | Pass w | TriggerScan w | UploadPolicy w _ _ => Some w
  | DeletePolicy _ => None
  end.

(** A call made while [OPENAI_API_KEY] is unset or empty. *)
Definition keyless (c : call) : Prop :=
  match world_of c with
  | Some w => Detect.no_key (api_key w) = true
  | None => True
  end.

(** A policy as [_load_policies_from_disk] builds it from one of the
    files of [POLICIES_DIR]. *)
Definition from_disk (w : world) (p : Policy.t) : Prop :=
  exists files f,
    policies_dir w = Some files /\ f ∈ files /\
    Policy.id p = replace "_" "-" (stem f) /\
    Policy.description p = "Loaded from disk: " +:+ stem f +:+ ".md" /\
    content f = Some (Policy.text p).

(** The data model's invariants on the ledger: every entry has an id, no
    two entries have the same, and [resolvedAtIso] is set on the resolved
    entries only. *)
Definition ledger_ok (L : list record) : Prop :=
  Forall has_id L /\ NoDup (ids L) /\ Forall entry_ok L.

End Service.

(** ** Sample inputs *)

Module Samples.
Import Reconcile.

(** Two readings of the clock. *)
Definition t0 : string := "2024-05-01T10:00:00Z".
Definition t1 : string := "2024-05-01T10:00:10Z".
Definition t2 : string := "2024-05-01T10:00:20Z".

(** The candidate that the token rule writes down. *)
Definition token_finding : record :=
  Detect.candidate "b-003"
    "Secret/token-like string found"
    "Detected a token-like pattern in the document."
    "secrets-handling" "high"
    "Secrets handling: never store tokens in shared docs."
    "Matched pattern: sk_live_abcd…"
    "Rotate token and remove from document.".

(** The entry made of it on first detection, and the same entry once
    resolved. *)
Definition open_entry : record := new_item t0 token_finding.

Definition resolved_entry : record :=
  <["id" := VStr "b-002"]>
    (<["resolvedAtIso" := VStr t1]> (<["status" := VStr "RESOLVED"]> open_entry)).

(** A detection that carries a [lastSeenIso] of its own. *)
Definition stamped_finding : record :=
  list_to_map [("id", VStr "retention-forever");
               ("title", VStr "Data kept forever");
               ("lastSeenIso", VStr "2000-01-01T00:00:00Z")].



(** A detection with a not-a-number in one of its descriptive fields: the
    token finding with [details] given as [NaN]. *)
Definition nan_finding : record :=
  <["details" := VFloat FNan "nan"]> token_finding.

(** A ledger entry without an id. *)
Definition anonymous_entry : record :=
  list_to_map [("title", VStr "Untracked finding"); ("status", VStr "OPEN")].

(** A policy set with the policy that the token rule prefers. *)
Definition secrets_policy : Policy.t :=
  Policy.Make "secrets-handling" "Secrets Handling"
              "Loaded from disk: secrets_handling.md" "1.0" t0
              "Never store tokens in shared docs.".

(** A service that fails, and one that finds nothing. *)
Definition failing_service (_ : string) (_ : list Policy.t) (_ : list record)
    : Detect.reply :=
  Detect.Raises (service_error "Request timed out.").

Definition quiet_service (_ : nat) (_ : string) (_ : list Policy.t)
    (_ : list record) : Detect.reply :=
  Detect.Parsed (VDict [("violations", VList [])]).

(** A clock that shows a new second at each reading. *)
Definition sample_clock (n : nat) : string :=
  "2024-05-01T10:00:" +:+ (if (n <? 10)%nat then "0" else "") +:+ pretty n +:+ "Z".

Definition sample_policy_files : list Scan.policy_file :=
  [Scan.PolicyFile "secrets_handling" 1714550000 (Some "Never store tokens in shared docs.");
   Scan.PolicyFile "data_retention" 1714550500 (Some "Users can ask for deletion.")].

(** Surroundings of the scanner: with two policy files, with an empty
    policy directory, and without the monitored document. *)
Definition world_with_policies : Scan.world :=
  Scan.World "/srv/backend" (Some sample_policy_files)
             (Some (1714557600%Z, "Meeting notes, nothing to report."))
             (Some "sk-test") quiet_service sample_clock.

(** The same files seen later: the document has other words, its
    modification time is the same. *)
Definition world_edited_in_place : Scan.world :=
  Scan.World "/srv/backend" (Some sample_policy_files)
             (Some (1714557600%Z, "Meeting notes. Token: sk_live_abcdef1234567890"))
             (Some "sk-test") quiet_service sample_clock.

Definition world_without_policies : Scan.world :=
  Scan.World "/srv/backend" (Some [])
             (Some (1714557600%Z, "Meeting notes, nothing to report."))
             (Some "sk-test") quiet_service sample_clock.

Definition world_without_document : Scan.world :=
  Scan.World "/srv/backend" (Some sample_policy_files) None
             (Some "sk-test") quiet_service sample_clock.

(** The scanner before its first scan. *)
Definition fresh_run : Scan.run := Scan.Run Scan.initial 0 0.

End Samples.

(** ** More sample inputs *)

Module Scenarios.
Import Samples.

(** The surroundings of a scanner that has no key: the two policy files
    and a document. *)
Definition world_without_key : Scan.world :=
  Scan.World "/srv/backend" (Some sample_policy_files)
             (Some (1714557600%Z, "Users cannot delete their data."))
             None quiet_service sample_clock.

(** The same, seen ten seconds later: nothing was touched. *)
Definition world_without_key_later : Scan.world :=
  Scan.World "/srv/backend" (Some sample_policy_files)
             (Some (1714557600%Z, "Users cannot delete their data."))
             None quiet_service sample_clock.

(** A service that reports the token finding, whatever it is sent. *)
Definition alert_service (_ : nat) (_ : string) (_ : list Policy.t)
    (_ : list record) : Detect.reply :=
  Detect.Parsed
    (VDict [("violations",
             VList [VDict [("id", VStr "b-003");
                           ("title", VStr "Secret/token-like string found");
                           ("sourceId", VStr "google-drive");
                           ("policyId", VStr "secrets-handling");
                           ("severity", VStr "high")];
                    VStr "not an object"])]).

Definition world_with_alert : Scan.world :=
  Scan.World "/srv/backend" (Some sample_policy_files)
             (Some (1714557600%Z, "Token: sk_live_abcdef1234567890"))
             (Some "sk-test") alert_service sample_clock.

(** A service whose answer depends on what it is sent: it reports the
    token finding only when it is given policies to check against. *)
Definition policy_bound_service (n : nat) (doc : string) (ps : list Policy.t)
    (eo : list record) : Detect.reply :=
  match ps with
  | [] => Detect.Parsed (VDict [("violations", VList [])])
  | _ :: _ => alert_service n doc ps eo
  end.

Definition world_with_policy_bound_service : Scan.world :=
  Scan.World "/srv/backend" (Some sample_policy_files)
             (Some (1714557600%Z, "Token: sk_live_abcdef1234567890"))
             (Some "sk-test") policy_bound_service sample_clock.

(** The surroundings of a scanner whose policy directory is missing. *)
Definition world_without_directory : Scan.world :=
  Scan.World "/srv/backend" None
             (Some (1714557600%Z, "Meeting notes, nothing to report."))
             (Some "sk-test") quiet_service sample_clock.

(** [str(e)], as far as the samples go. *)
Definition say (e : exn) : string :=
  match e with
  | re_error _ => "bad character range \\-( at position 12"
  | type_error msg | os_error msg | service_error msg => msg
  end.

(** The JSON body of an upload. *)
Definition sample_upload : value :=
  VDict [("name", VStr "  Retention rules "); ("text", VStr "Keep nothing forever.")].

End Scenarios.

(** * Properties *)

(** ** [==] on the JSON fragment *)

(** A not-a-number does not equal itself; an integer does. *)
Example nan_is_not_steady : ~ steady (VFloat FNan "nan").
Proof. unfold steady. cbn. discriminate. Qed.

Lemma steady_None : steady VNone.
Proof. reflexivity. Qed.

Lemma steady_str s : steady (VStr s).
Proof. unfold steady. cbn. apply bool_decide_eq_true. reflexivity. Qed.



(** ** Ordered dicts *)

Section odict_facts.
Context {A : Type}.
Implicit Types (d : odict A) (k : string) (v : A).

Lemma odict_get_set k k' v d :
  odict_get k (odict_set k' v d) = if decide (k = k') then Some v else odict_get k d.
Proof.
  induction d as [| [k0 v0] d IH]; simpl.
  - repeat case_decide; congruence.
  - destruct (decide (k' = k0)) as [-> | Hne]; simpl.
    + repeat case_decide; congruence.
    + rewrite IH. repeat case_decide; congruence.
Qed.

Lemma odict_set_keys k v d :
  (odict_set k v d).*1 = if decide (k ∈ d.*1) then d.*1 else d.*1 ++ [k].
Proof.
  induction d as [| [k0 v0] d IH]; [reflexivity |].
  cbn [odict_set]. rewrite fmap_cons. cbn [fst].
  destruct (decide (k = k0)) as [-> | Hne].
  - rewrite decide_True by left. reflexivity.
  - rewrite fmap_cons, IH. cbn [fst].
    destruct (decide (k ∈ d.*1)) as [Hin | Hnin].
    + rewrite decide_True by (right; exact Hin). reflexivity.
    + rewrite decide_False; [reflexivity |].
      intros [? | ?]%elem_of_cons; congruence.
Qed.

Lemma odict_set_NoDup k v d : NoDup d.*1 -> NoDup (odict_set k v d).*1.
Proof.
  intros Hnd. rewrite odict_set_keys. case_decide as Hin; [exact Hnd |].
  apply NoDup_app. split; [exact Hnd |]. split.
  - intros x Hx ->%list_elem_of_singleton. contradiction.
  - apply NoDup_singleton.
Qed.

Lemma odict_get_None k d : odict_get k d = None <-> k ∉ d.*1.
Proof.
  induction d as [| [k0 v0] d IH]; simpl.
  - split; [ intros _ H; inversion H | reflexivity ].
  - case_decide as Hk.
    + subst. split; [ discriminate | intros H; exfalso; apply H; left ].
    + rewrite IH. rewrite not_elem_of_cons. tauto.
Qed.

Lemma odict_get_elem k v d : odict_get k d = Some v -> (k, v) ∈ d.
Proof.
  induction d as [| [k0 v0] d IH]; simpl; [discriminate |].
  case_decide as Hk.
  - intros [= <-]. subst. left.
  - intros H. right. apply IH. exact H.
Qed.

Lemma odict_elem_get k v d : NoDup d.*1 -> (k, v) ∈ d -> odict_get k d = Some v.
Proof.
  induction d as [| [k0 v0] d IH]; simpl; intros Hnd Hin.
  - inversion Hin.
  - apply NoDup_cons in Hnd as [Hk0 Hnd].
    apply elem_of_cons in Hin as [[= -> ->] | Hin].
    + rewrite decide_True by reflexivity. reflexivity.
    + rewrite decide_False; [apply IH; assumption |].
      intros ->. apply Hk0. apply list_elem_of_fmap. exists (k0, v). split; [reflexivity | exact Hin].
Qed.
End odict_facts.
(** ** Reconciliation *)

Module ReconcileFacts.
Import Reconcile.

(** *** The engine on the sample inputs *)

(** An open entry that is not detected is resolved at the reading of the
    clock. *)
Example undetected_entry_is_resolved :
  let r := _reconcile Samples.t1 [Samples.open_entry] [] in
  map (fun e => (get e "status", get e "resolvedAtIso", get e "lastSeenIso")) r.1
    = [(VStr "RESOLVED", VStr Samples.t1, VStr Samples.t0)] /\
  r.2 = Diff true 0 0 1 0 1.
Proof. vm_compute. split; reflexivity. Qed.

(** Detected again, it is reopened and keeps the time it was first seen. *)
Example detected_again_is_reopened :
  let r := _reconcile Samples.t2
             (_reconcile Samples.t1 [Samples.open_entry] []).1
             [Samples.token_finding] in
  map (fun e => (get e "status", get e "resolvedAtIso", get e "lastSeenIso",
                 get e "firstSeenIso")) r.1
    = [(VStr "OPEN", VNone, VStr Samples.t2, VStr Samples.t0)] /\
  r.2 = Diff true 0 1 0 1 0.
Proof. vm_compute. split; reflexivity. Qed.

(** New items are put in front, the last detected first. *)
Example new_items_in_front :
  let r := _reconcile Samples.t1 [Samples.resolved_entry]
             [Samples.token_finding; Samples.stamped_finding] in
  map (fun e => (get e "id", get e "status")) r.1
    = [(VStr "retention-forever", VStr "OPEN"); (VStr "b-003", VStr "OPEN");
       (VStr "b-002", VStr "RESOLVED")] /\
  r.2 = Diff true 2 0 0 2 1.
Proof. vm_compute. split; reflexivity. Qed.

Lemma get_insert_eq (r : record) k v : get (<[k:=v]> r) k = v.
Proof. unfold get. rewrite lookup_insert_eq. reflexivity. Qed.

Lemma get_insert_ne (r : record) k k' v : k ≠ k' -> get (<[k:=v]> r) k' = get r k'.
Proof. intros H. unfold get. rewrite lookup_insert_ne by exact H. reflexivity. Qed.

Lemma get_or_insert_eq (r : record) k v dflt : get_or (<[k:=v]> r) k dflt = v.
Proof. unfold get_or. rewrite lookup_insert_eq. reflexivity. Qed.

Lemma py_eq_str v s : py_eq v (VStr s) = true <-> v = VStr s.
Proof.
  destruct v; simpl; try (split; [discriminate | discriminate]).
  rewrite bool_decide_eq_true. split; congruence.
Qed.

Lemma py_eq_str_false v s : py_eq v (VStr s) = false <-> v ≠ VStr s.
Proof.
  rewrite <- py_eq_str. destruct (py_eq v (VStr s)); split; congruence.
Qed.

(** *** Indexing by id *)

Lemma index_fold_NoDup vs d : NoDup d.*1 -> NoDup (fold_left index_step vs d).*1.
Proof.
  revert d. induction vs as [| v vs IH]; intros d Hd; [exact Hd |].
  simpl. apply IH. unfold index_step. destruct (id_key v); [| exact Hd].
  apply odict_set_NoDup. exact Hd.
Qed.

Lemma index_fold_get vs d k v :
  odict_get k (fold_left index_step vs d) = Some v ->
  odict_get k d = Some v ∨ (v ∈ vs ∧ id_key v = Some k).
Proof.
  revert d. induction vs as [| v0 vs IH]; intros d H; [left; exact H |].
  simpl in H. apply IH in H as [H | [H1 H2]].
  - unfold index_step in H. destruct (id_key v0) as [k0 |] eqn:Hk0; [| left; exact H].
    rewrite odict_get_set in H. case_decide as Hk; [| left; exact H].
    injection H as <-. subst. right. split; [left | exact Hk0].
  - right. split; [right; exact H1 | exact H2].
Qed.

Lemma index_fold_mem vs d k :
  is_Some (odict_get k (fold_left index_step vs d)) <->
  is_Some (odict_get k d) ∨ k ∈ ids vs.
Proof.
  revert d. induction vs as [| v0 vs IH]; intros d.
  - simpl. split; [left; assumption | intros [H | H]; [exact H | inversion H]].
  - simpl. rewrite IH. unfold ids. simpl. unfold index_step.
    destruct (id_key v0) as [k0 |] eqn:Hk0; simpl; [| tauto].
    rewrite odict_get_set, elem_of_cons. case_decide as Hk.
    + subst. split; [intros _; right; left; reflexivity | intros _; left; eexists; reflexivity].
    + split; [intros [H | H]; tauto | intros [H | [H | H]]; [tauto | congruence | tauto]].
Qed.

Lemma by_id_NoDup vs : NoDup (by_id vs).*1.
Proof. apply index_fold_NoDup. constructor. Qed.

Lemma by_id_get vs k v :
  odict_get k (by_id vs) = Some v -> v ∈ vs ∧ id_key v = Some k.
Proof. intros H. apply index_fold_get in H as [H | H]; [discriminate | exact H]. Qed.

Lemma by_id_mem vs k : is_Some (odict_get k (by_id vs)) <-> k ∈ ids vs.
Proof.
  unfold by_id. rewrite (index_fold_mem vs [] k). simpl.
  split; [intros [[? H] | H]; [discriminate | exact H] | intros H; right; exact H].
Qed.

Lemma by_id_None vs k : odict_get k (by_id vs) = None <-> k ∉ ids vs.
Proof.
  rewrite <- by_id_mem. rewrite <- eq_None_not_Some. reflexivity.
Qed.

(** *** The loop over the descriptive fields *)

Lemma overwrite_fst d st k : (overwrite d st k).1 = ow d st.1 k.
Proof. unfold overwrite, ow, wants. destruct (_ && _); reflexivity. Qed.

Lemma overwrite_fold_fst d ks st :
  (fold_left (overwrite d) ks st).1 = fold_left (ow d) ks st.1.
Proof.
  revert st. induction ks as [| k ks IH]; intros st; [reflexivity |].
  simpl. rewrite IH, overwrite_fst. reflexivity.
Qed.

Lemma ow_lookup_ne d old k k' : k ≠ k' -> ow d old k !! k' = old !! k'.
Proof.
  intros Hne. unfold ow. destruct (wants d old k); [| reflexivity].
  apply lookup_insert_ne. exact Hne.
Qed.

Lemma ow_fold_lookup d ks old k :
  k ∉ ks -> fold_left (ow d) ks old !! k = old !! k.
Proof.
  revert old. induction ks as [| k0 ks IH]; intros old Hk; [reflexivity |].
  apply not_elem_of_cons in Hk as [Hne Hk]. simpl.
  rewrite IH by exact Hk. apply ow_lookup_ne. congruence.
Qed.






(** *** One turn of the first loop *)

Lemma refresh_record now d old c :
  (refresh now d (status_of old) old c).1.1 = refreshed now d old.
Proof.
  unfold refresh, refreshed. cbn [fst]. rewrite overwrite_fold_fst. reflexivity.
Qed.

Lemma refresh_reopen now d old c :
  (refresh now d (status_of old) old c).1.2 = py_eq (status_of old) (VStr "RESOLVED").
Proof. reflexivity. Qed.

Lemma retire_record now old : (retire now (status_of old) old).1 = retired now old.
Proof. unfold retire, retired. destruct (py_eq _ _); reflexivity. Qed.

Lemma retire_flag now old :
  (retire now (status_of old) old).2 = negb (py_eq (status_of old) (VStr "RESOLVED")).
Proof. unfold retire. destruct (py_eq _ _); reflexivity. Qed.

Lemma visit_updated now det a old :
  updated (visit now det a old) = updated a ++ option_list (touch now det old).
Proof.
  unfold visit, touch. fold (status_of old).
  destruct (id_key old) as [vid |]; [| symmetry; apply app_nil_r].
  destruct (odict_get vid det) as [d |].
  - pose proof (refresh_record now d old (acc_changed a)) as H.
    destruct (refresh now d (status_of old) old (acc_changed a)) as [[o r] c].
    simpl in *. rewrite H. reflexivity.
  - pose proof (retire_record now old) as H.
    destruct (retire now (status_of old) old) as [o r].
    simpl in *. rewrite H. reflexivity.
Qed.

Lemma visit_new_count now det a old : new_count (visit now det a old) = new_count a.
Proof.
  unfold visit. destruct (id_key old) as [vid |]; [| reflexivity].
  destruct (odict_get vid det) as [d |].
  - destruct (refresh _ _ _ _ _) as [[o r] c]. reflexivity.
  - destruct (retire _ _ _) as [o r]. reflexivity.
Qed.

Lemma visit_reopened now det a old :
  acc_reopened (visit now det a old) =
  acc_reopened a + (if reopens det old then 1 else 0).
Proof.
  unfold visit, reopens. fold (status_of old).
  destruct (id_key old) as [vid |]; [| lia].
  destruct (odict_get vid det) as [d |].
  - pose proof (refresh_reopen now d old (acc_changed a)) as H.
    destruct (refresh now d (status_of old) old (acc_changed a)) as [[o r] c].
    simpl in *. rewrite H. destruct (py_eq _ _); lia.
  - destruct (retire _ _ _) as [o r]. simpl. lia.
Qed.

Lemma visit_resolved now det a old :
  acc_resolved (visit now det a old) =
  acc_resolved a + (if resolves det old then 1 else 0).
Proof.
  unfold visit, resolves. fold (status_of old).
  destruct (id_key old) as [vid |]; [| lia].
  destruct (odict_get vid det) as [d |].
  - destruct (refresh _ _ _ _ _) as [[o r] c]. simpl. lia.
  - pose proof (retire_flag now old) as H.
    destruct (retire now (status_of old) old) as [o r].
    simpl in *. rewrite H. destruct (negb _); lia.
Qed.

Lemma visits_updated now det L a :
  updated (fold_left (visit now det) L a) = updated a ++ omap (touch now det) L.
Proof.
  revert a. induction L as [| old L IH]; intros a; simpl.
  - symmetry. apply app_nil_r.
  - rewrite IH, visit_updated. destruct (touch now det old); simpl.
    + rewrite <- app_assoc. reflexivity.
    + rewrite app_nil_r. reflexivity.
Qed.

Lemma visits_new_count now det L a :
  new_count (fold_left (visit now det) L a) = new_count a.
Proof.
  revert a. induction L as [| old L IH]; intros a; simpl; [reflexivity |].
  rewrite IH. apply visit_new_count.
Qed.

Lemma visits_reopened now det L a :
  acc_reopened (fold_left (visit now det) L a) =
  acc_reopened a + length (List.filter (reopens det) L).
Proof.
  revert a. induction L as [| old L IH]; intros a; simpl; [lia |].
  rewrite IH, visit_reopened. destruct (reopens det old); simpl; lia.
Qed.

Lemma visits_resolved now det L a :
  acc_resolved (fold_left (visit now det) L a) =
  acc_resolved a + length (List.filter (resolves det) L).
Proof.
  revert a. induction L as [| old L IH]; intros a; simpl; [lia |].
  rewrite IH, visit_resolved. destruct (resolves det old); simpl; lia.
Qed.

(** *** The second loop *)

Lemma add_new_updated now ex a kv :
  updated (add_new now ex a kv) = option_list (fresh_item now ex kv) ++ updated a.
Proof. unfold add_new, fresh_item. destruct (odict_get kv.1 ex); reflexivity. Qed.

Lemma adds_updated now ex det a :
  updated (fold_left (add_new now ex) det a) =
  reverse (omap (fresh_item now ex) det) ++ updated a.
Proof.
  revert a. induction det as [| kv det IH]; intros a; simpl; [reflexivity |].
  rewrite IH, add_new_updated. destruct (fresh_item now ex kv); simpl.
  - rewrite reverse_cons, <- app_assoc. reflexivity.
  - reflexivity.
Qed.

Lemma adds_reopened now ex det a :
  acc_reopened (fold_left (add_new now ex) det a) = acc_reopened a.
Proof.
  revert a. induction det as [| kv det IH]; intros a; simpl; [reflexivity |].
  rewrite IH. unfold add_new. destruct (odict_get kv.1 ex); reflexivity.
Qed.

Lemma adds_resolved now ex det a :
  acc_resolved (fold_left (add_new now ex) det a) = acc_resolved a.
Proof.
  revert a. induction det as [| kv det IH]; intros a; simpl; [reflexivity |].
  rewrite IH. unfold add_new. destruct (odict_get kv.1 ex); reflexivity.
Qed.


(** *** The ledger and the counters that [_reconcile] returns *)

Lemma reconcile_ledger now L D :
  (_reconcile now L D).1 = news now L D ++ olds now L D.
Proof.
  unfold _reconcile. cbn [fst].
  rewrite adds_updated, visits_updated. reflexivity.
Qed.

Lemma reconcile_reopened now L D :
  reopened (_reconcile now L D).2 = length (List.filter (reopens (by_id D)) L).
Proof.
  unfold _reconcile. cbn [snd reopened].
  rewrite adds_reopened, visits_reopened. reflexivity.
Qed.

Lemma reconcile_resolved now L D :
  resolved (_reconcile now L D).2 = length (List.filter (resolves (by_id D)) L).
Proof.
  unfold _reconcile. cbn [snd resolved].
  rewrite adds_resolved, visits_resolved. reflexivity.
Qed.

(** *** Keys that the loops leave alone *)

Lemma backfill_lookup now old k : k ≠ "firstSeenIso" -> backfill now old !! k = old !! k.
Proof.
  intros Hk. unfold backfill. destruct (is_none _); [| reflexivity].
  apply lookup_insert_ne. congruence.
Qed.

Lemma reopen_entry_lookup old k :
  k ≠ "status" -> k ≠ "resolvedAtIso" -> reopen_entry old !! k = old !! k.
Proof.
  intros H1 H2. unfold reopen_entry.
  rewrite !lookup_insert_ne by congruence. reflexivity.
Qed.

Lemma refreshed_lookup now d old k :
  k ∉ STAMPS ++ FIELDS -> refreshed now d old !! k = old !! k.
Proof.
  intros Hk. apply not_elem_of_app in Hk as [Hs Hf].
  unfold STAMPS in Hs. rewrite !not_elem_of_cons in Hs.
  destruct Hs as (H1 & H2 & H3 & H4 & _).
  unfold refreshed. rewrite ow_fold_lookup by exact Hf.
  destruct (py_eq _ _).
  - rewrite reopen_entry_lookup by assumption.
    rewrite lookup_insert_ne by congruence. apply backfill_lookup. exact H1.
  - rewrite lookup_insert_ne by congruence. apply backfill_lookup. exact H1.
Qed.

Lemma retired_lookup now old k :
  k ∉ STAMPS ++ FIELDS -> retired now old !! k = old !! k.
Proof.
  intros Hk. apply not_elem_of_app in Hk as [Hs _].
  unfold STAMPS in Hs. rewrite !not_elem_of_cons in Hs.
  destruct Hs as (H1 & H2 & H3 & H4 & _).
  unfold retired. destruct (py_eq _ _); [reflexivity |].
  rewrite !lookup_insert_ne by congruence. reflexivity.
Qed.

Lemma touch_lookup now det old e k :
  touch now det old = Some e -> k ∉ STAMPS ++ FIELDS -> e !! k = old !! k.
Proof.
  unfold touch. destruct (id_key old) as [vid |]; [| discriminate].
  intros [= <-] Hk. destruct (odict_get vid det).
  - apply refreshed_lookup. exact Hk.
  - apply retired_lookup. exact Hk.
Qed.

Lemma id_not_touched : "id" ∉ STAMPS ++ FIELDS.
Proof. compute_done. Qed.

Lemma id_key_ext (v w : record) : v !! "id" = w !! "id" -> id_key v = id_key w.
Proof. intros H. unfold id_key, get. rewrite H. reflexivity. Qed.

Lemma touch_id_key now det old e : touch now det old = Some e -> id_key e = id_key old.
Proof.
  intros H. apply id_key_ext. eapply touch_lookup; [exact H | apply id_not_touched].
Qed.

Lemma touch_is_Some now det old : is_Some (touch now det old) <-> is_Some (id_key old).
Proof.
  unfold touch. destruct (id_key old); split; intros [? H]; try discriminate; eexists; reflexivity.
Qed.

Lemma setdefault_lookup_ne k k' v (r : record) :
  k ≠ k' -> setdefault k v r !! k' = r !! k'.
Proof.
  intros H. unfold setdefault. destruct (r !! k); [reflexivity |].
  apply lookup_insert_ne. exact H.
Qed.

Lemma new_item_lookup now d k : k ∉ NEW_KEYS -> new_item now d !! k = d !! k.
Proof.
  unfold NEW_KEYS. rewrite !not_elem_of_cons.
  intros (H1 & H2 & H3 & H4 & H5 & H6 & _).
  unfold new_item. rewrite !lookup_insert_ne by congruence.
  rewrite !setdefault_lookup_ne by congruence. reflexivity.
Qed.

Lemma new_item_id_key now d : id_key (new_item now d) = id_key d.
Proof. apply id_key_ext. apply new_item_lookup. compute_done. Qed.

Lemma ids_olds now L D : ids (olds now L D) = ids L.
Proof.
  unfold olds, ids. induction L as [| old L IH]; [reflexivity |].
  simpl. destruct (touch now (by_id D) old) as [e |] eqn:He; simpl.
  - rewrite (touch_id_key _ _ _ _ He).
    destruct (touch_is_Some now (by_id D) old) as [Hs _].
    destruct Hs as [vid Hvid]; [eexists; exact He |].
    rewrite Hvid. f_equal. exact IH.
  - destruct (id_key old) as [vid |] eqn:Hvid; [| exact IH].
    exfalso. destruct (touch_is_Some now (by_id D) old) as [_ Hs].
    destruct Hs as [e He']; [exists vid; exact Hvid | congruence].
Qed.

(** *** Entries that a re-run leaves alone *)



Lemma status_of_ext (v w : record) :
  v !! "status" = w !! "status" -> status_of v = status_of w.
Proof. intros H. unfold status_of, get_or. rewrite H. reflexivity. Qed.



(** A detected entry does not come out RESOLVED. *)
Lemma refreshed_not_resolved now d old :
  py_eq (status_of (refreshed now d old)) (VStr "RESOLVED") = false.
Proof.
  unfold refreshed.
  set (o := <["lastSeenIso" := VStr now]> (backfill now old)).
  assert (Ho3 : status_of o = status_of old).
  { apply status_of_ext. unfold o. rewrite lookup_insert_ne by done.
    apply backfill_lookup. done. }
  rewrite (status_of_ext _ (if py_eq (status_of old) (VStr "RESOLVED")
                             then reopen_entry o else o))
    by (apply ow_fold_lookup; compute_done).
  destruct (py_eq (status_of old) (VStr "RESOLVED")) eqn:Hst.
  - unfold reopen_entry, status_of, get_or.
    rewrite lookup_insert_ne by done. rewrite lookup_insert_eq. reflexivity.
  - rewrite Ho3. exact Hst.
Qed.





(** *** Where the entries of the returned ledger come from *)

Lemma elem_of_news now L D e :
  e ∈ news now L D ->
  exists vid d, e = new_item now d /\ d ∈ D /\ id_key d = Some vid /\
                odict_get vid (by_id D) = Some d /\ vid ∉ ids L.
Proof.
  unfold news. rewrite elem_of_reverse, list_elem_of_omap.
  intros ([vid d] & Hin & Hf). unfold fresh_item in Hf. cbn [fst snd] in Hf.
  destruct (odict_get vid (by_id L)) eqn:Hex; [discriminate |].
  injection Hf as <-.
  assert (Hd : odict_get vid (by_id D) = Some d)
    by (apply odict_elem_get; [apply by_id_NoDup | exact Hin]).
  destruct (by_id_get _ _ _ Hd) as [HdD Hid].
  exists vid, d. repeat split; try assumption. apply by_id_None. exact Hex.
Qed.

Lemma elem_of_olds now L D e :
  e ∈ olds now L D -> exists old, old ∈ L /\ touch now (by_id D) old = Some e.
Proof. unfold olds. rewrite list_elem_of_omap. intros H. exact H. Qed.

Lemma elem_of_ids (vs : list record) k :
  k ∈ ids vs <-> exists v, v ∈ vs /\ id_key v = Some k.
Proof. unfold ids. apply list_elem_of_omap. Qed.



Lemma entry_ok_ext (v w : record) :
  v !! "status" = w !! "status" -> v !! "resolvedAtIso" = w !! "resolvedAtIso" ->
  entry_ok v -> entry_ok w.
Proof. unfold entry_ok, get. intros -> ->. tauto. Qed.

Lemma status_of_resolved (v : record) :
  py_eq (status_of v) (VStr "RESOLVED") = true <-> get v "status" = VStr "RESOLVED".
Proof.
  rewrite py_eq_str. unfold status_of, get_or, get.
  destruct (v !! "status"); simpl; [reflexivity |]. split; discriminate.
Qed.

Lemma reopen_entry_ok o : entry_ok (reopen_entry o).
Proof.
  unfold entry_ok, reopen_entry. rewrite get_insert_eq.
  rewrite get_insert_ne by done. rewrite get_insert_eq.
  split; [intros H; contradiction | discriminate].
Qed.

Lemma refreshed_ok now d old : entry_ok old -> entry_ok (refreshed now d old).
Proof.
  intros Hok. unfold refreshed.
  set (o := <["lastSeenIso" := VStr now]> (backfill now old)).
  apply (entry_ok_ext (if py_eq (status_of old) (VStr "RESOLVED") then reopen_entry o else o)).
  - symmetry. apply ow_fold_lookup. compute_done.
  - symmetry. apply ow_fold_lookup. compute_done.
  - destruct (py_eq _ _); [apply reopen_entry_ok |].
    apply (entry_ok_ext old); [| | exact Hok]; unfold o;
      rewrite lookup_insert_ne by done; symmetry; apply backfill_lookup; done.
Qed.

Lemma retired_ok now old : entry_ok old -> entry_ok (retired now old).
Proof.
  intros Hok. unfold retired. destruct (py_eq _ _); [exact Hok |].
  unfold entry_ok. rewrite get_insert_eq. rewrite get_insert_ne by done.
  rewrite get_insert_eq. split; [reflexivity | discriminate].
Qed.

Lemma new_item_ok now d : entry_ok (new_item now d).
Proof.
  unfold entry_ok, new_item. rewrite get_insert_eq.
  rewrite get_insert_ne by done. rewrite get_insert_eq.
  split; [intros H; contradiction | discriminate].
Qed.

Lemma olds_same now L D :
  Forall2 same_entry (filter has_id L) (olds now L D).
Proof.
  unfold olds. induction L as [| old L IH]; [constructor |].
  destruct (id_key old) as [vid |] eqn:Hid.
  - rewrite filter_cons_True by (eexists; exact Hid).
    destruct (touch now (by_id D) old) as [e |] eqn:He.
    + change (omap (touch now (by_id D)) (old :: L))
        with (match touch now (by_id D) old with
              | Some y => y :: omap (touch now (by_id D)) L
              | None => omap (touch now (by_id D)) L end).
      rewrite He. constructor; [| exact IH].
      intros k Hk. eapply touch_lookup; eassumption.
    + exfalso. destruct (touch_is_Some now (by_id D) old) as [_ Hs].
      destruct Hs as [e He']; [exists vid; exact Hid | congruence].
  - rewrite filter_cons_False by (intros [? H]; unfold has_id in *; congruence).
    change (omap (touch now (by_id D)) (old :: L))
        with (match touch now (by_id D) old with
              | Some y => y :: omap (touch now (by_id D)) L
              | None => omap (touch now (by_id D)) L end).
    unfold touch at 1. rewrite Hid. exact IH.
Qed.

Lemma omap_cons_Some {A B} (f : A -> option B) x y l :
  f x = Some y -> omap f (x :: l) = y :: omap f l.
Proof.
  intros H.
  change (omap f (x :: l)) with (match f x with Some y => y :: omap f l | None => omap f l end).
  rewrite H. reflexivity.
Qed.

Lemma omap_cons_None {A B} (f : A -> option B) x l :
  f x = None -> omap f (x :: l) = omap f l.
Proof.
  intros H.
  change (omap f (x :: l)) with (match f x with Some y => y :: omap f l | None => omap f l end).
  rewrite H. reflexivity.
Qed.

Lemma ids_cons (a : record) l : ids (a :: l) = option_list (id_key a) ++ ids l.
Proof. unfold ids. change (omap id_key (a :: l)) with (match id_key a with Some y => y :: omap id_key l | None => omap id_key l end). destruct (id_key a); reflexivity. Qed.

Lemma ids_app l1 l2 : ids (l1 ++ l2) = ids l1 ++ ids l2.
Proof. apply omap_app. Qed.

Lemma no_id_without X l : X ∉ ids l -> without X l = l.
Proof.
  unfold without. induction l as [| a l IH]; [reflexivity |].
  rewrite ids_cons, not_elem_of_app. intros [Ha Hl].
  rewrite filter_cons_True.
  - rewrite IH by exact Hl. reflexivity.
  - intros Heq. apply Ha. rewrite Heq. left.
Qed.

Lemma no_id_entries X l : X ∉ ids l -> filter (fun e => id_key e = Some X) l = [].
Proof.
  induction l as [| a l IH]; [reflexivity |].
  rewrite ids_cons, not_elem_of_app. intros [Ha Hl].
  rewrite filter_cons_False.
  - apply IH. exact Hl.
  - intros Heq. apply Ha. rewrite Heq. left.
Qed.

Lemma without_split X A y B :
  X ∉ ids A -> X ∉ ids B -> id_key y = Some X ->
  without X (A ++ y :: B) = A ++ B.
Proof.
  intros HA HB Hy. unfold without. rewrite filter_app.
  rewrite filter_cons_False by (intros H; apply H; exact Hy).
  fold (without X A) (without X B). rewrite !no_id_without by assumption. reflexivity.
Qed.

Lemma entries_split X A y B :
  X ∉ ids A -> X ∉ ids B -> id_key y = Some X ->
  filter (fun e => id_key e = Some X) (A ++ y :: B) = [y].
Proof.
  intros HA HB Hy. rewrite filter_app.
  rewrite filter_cons_True by exact Hy.
  rewrite !no_id_entries by assumption. reflexivity.
Qed.

Lemma count_split (p : record -> bool) A y B :
  length (List.filter p (A ++ y :: B)) =
  length (List.filter p (A ++ B)) + (if p y then 1 else 0).
Proof.
  rewrite !List.filter_app, !length_app. simpl.
  destruct (p y); simpl; lia.
Qed.

Lemma olds_split now D l1 x l2 e :
  touch now (by_id D) x = Some e ->
  olds now (l1 ++ x :: l2) D = olds now l1 D ++ e :: olds now l2 D.
Proof.
  intros He. unfold olds. rewrite omap_app.
  change (omap (touch now (by_id D)) (x :: l2))
    with (match touch now (by_id D) x with
          | Some y => y :: omap (touch now (by_id D)) l2
          | None => omap (touch now (by_id D)) l2 end).
  rewrite He. reflexivity.
Qed.

Lemma news_ids now L D k : k ∈ ids (news now L D) -> k ∈ ids D /\ k ∉ ids L.
Proof.
  rewrite elem_of_ids. intros (e & He & Hk).
  apply elem_of_news in He as (vid & d & -> & HdD & Hid & _ & Hnot).
  rewrite new_item_id_key in Hk. assert (vid = k) by congruence. subst.
  split; [| exact Hnot]. apply elem_of_ids. exists d. split; assumption.
Qed.

Lemma open_not_resolved (x : record) :
  is_open x = true -> py_eq (status_of x) (VStr "RESOLVED") = false.
Proof.
  unfold is_open. fold (status_of x). rewrite py_eq_str. intros ->. reflexivity.
Qed.

Lemma retired_status now (x : record) :
  py_eq (status_of (retired now x)) (VStr "RESOLVED") = true.
Proof.
  unfold retired. destruct (py_eq (status_of x) (VStr "RESOLVED")) eqn:H; [exact H |].
  unfold status_of, get_or. rewrite lookup_insert_ne by done.
  rewrite lookup_insert_eq. reflexivity.
Qed.

Lemma refreshed_reopened now d (x : record) :
  py_eq (status_of x) (VStr "RESOLVED") = true ->
  get (refreshed now d x) "status" = VStr "OPEN" /\
  get (refreshed now d x) "resolvedAtIso" = VNone.
Proof.
  intros H. unfold refreshed, get. rewrite H.
  rewrite !ow_fold_lookup by compute_done. unfold reopen_entry.
  rewrite lookup_insert_eq. rewrite lookup_insert_ne by done.
  rewrite lookup_insert_eq. split; reflexivity.
Qed.

Lemma all_have_id (L : list record) : Forall has_id L -> filter has_id L = L.
Proof.
  induction 1 as [| x l Hx _ IH]; [reflexivity |].
  rewrite filter_cons, decide_True by exact Hx. f_equal. exact IH.
Qed.

Lemma adds_new_count now ex det a :
  new_count (fold_left (add_new now ex) det a) =
  new_count a + length (omap (fresh_item now ex) det).
Proof.
  revert a. induction det as [| kv det IH]; intros a; [cbn; lia |].
  cbn [fold_left]. rewrite IH. unfold add_new, fresh_item at 2.
  destruct (fresh_item now ex kv) as [e |] eqn:Hf;
    [rewrite (omap_cons_Some _ _ _ _ Hf) | rewrite (omap_cons_None _ _ _ Hf)];
    unfold fresh_item in Hf; destruct (odict_get kv.1 ex); try discriminate; cbn; lia.
Qed.

End ReconcileFacts.

(** ** The claims about reconciliation *)

Module ReconcileClaims.
Import Reconcile ReconcileFacts Samples.


(** C3.  Reconciliation never destroys history: for every ledger [L]
    whose entries have ids, every entry of [L] appears in the ledger that
    [_reconcile L D] returns, in the same relative order: the ledger
    returned is the new items, filed under ids that [L] does not have,
    followed by one entry for each entry of [L], in the order of [L], with
    the id of that entry and with every key outside the stamps and the
    descriptive fields as it was. *)
Theorem reconcile_keeps_history (now : string) (L D : list record) :
  Forall has_id L ->
  exists fresh kept,
    (_reconcile now L D).1 = fresh ++ kept /\
    Forall2 (fun old e => e !! "id" = old !! "id" /\ same_entry old e) L kept /\
    length fresh = new (_reconcile now L D).2 /\
    (forall k, k ∈ ids fresh -> k ∉ ids L).
Proof.
  intros HL. exists (news now L D), (olds now L D).
  split; [apply reconcile_ledger |]. split; [| split].
  - rewrite <- (all_have_id L HL) at 1.
    eapply Forall2_impl; [apply olds_same |].
    intros old e H. split; [apply H, id_not_touched | exact H].
  - unfold _reconcile, news. cbn [snd new].
    rewrite adds_new_count, visits_new_count, length_reverse. reflexivity.
  - intros k Hk. apply (news_ids now L D k Hk).
Qed.

(** C4.  Resolve/reopen symmetry.  In a ledger with unique ids, take
    an OPEN entry filed under [X]; reconcile once with [X] absent from the
    detections, then once with [X] present.  The ledger then has exactly
    one entry under [X], with status OPEN and [resolvedAtIso] null; the
    first call counts as many reopened entries as it would without [X]'s
    entry, the second one more than it would without it. *)
Theorem resolve_then_reopen (now1 now2 X : string) (L D1 D2 : list record)
    (x : record) :
  NoDup (ids L) -> x ∈ L -> id_key x = Some X -> is_open x = true ->
  X ∉ ids D1 -> X ∈ ids D2 ->
  let r1 := _reconcile now1 L D1 in
  let r2 := _reconcile now2 r1.1 D2 in
  (exists x2, filter (fun e => id_key e = Some X) r2.1 = [x2] /\
              get x2 "status" = VStr "OPEN" /\ get x2 "resolvedAtIso" = VNone) /\
  reopened r1.2 = reopened (_reconcile now1 (without X L) D1).2 /\
  reopened r2.2 = S (reopened (_reconcile now2 (without X r1.1) D2).2).
Proof.
  intros Hnd Hx Hid Hopen HD1 HD2 r1 r2.
  (* the ledger around [x] *)
  apply list_elem_of_split in Hx as (l1 & l2 & ->).
  rewrite ids_app, ids_cons, Hid in Hnd. cbn [option_list app] in Hnd.
  apply NoDup_app in Hnd as (_ & Hl1 & Hnd).
  apply NoDup_cons in Hnd as [Hl2 _].
  assert (Hl1' : X ∉ ids l1) by (intros H; apply (Hl1 X H); left).
  clear Hl1.
  (* first call: [x] is retired *)
  assert (Hdet1 : odict_get X (by_id D1) = None) by (apply by_id_None; exact HD1).
  assert (Ht1 : touch now1 (by_id D1) x = Some (retired now1 x))
    by (unfold touch; rewrite Hid, Hdet1; reflexivity).
  set (x1 := retired now1 x) in *.
  assert (Hid1 : id_key x1 = Some X)
    by (rewrite (touch_id_key _ _ _ _ Ht1); exact Hid).
  set (A := news now1 (l1 ++ x :: l2) D1 ++ olds now1 l1 D1).
  set (B := olds now1 l2 D1).
  assert (HL1 : r1.1 = A ++ x1 :: B).
  { unfold r1, A, B. rewrite reconcile_ledger, (olds_split _ _ _ _ _ _ Ht1).
    rewrite <- app_assoc. reflexivity. }
  assert (HA : X ∉ ids A).
  { unfold A. rewrite ids_app, ids_olds, not_elem_of_app. split; [| exact Hl1'].
    intros H. apply news_ids in H as [H _]. contradiction. }
  assert (HB : X ∉ ids B) by (unfold B; rewrite ids_olds; exact Hl2).
  (* second call: [x1] is refreshed and reopened *)
  destruct (proj2 (by_id_mem D2 X) HD2) as [d Hdet2].
  assert (Ht2 : touch now2 (by_id D2) x1 = Some (refreshed now2 d x1))
    by (unfold touch; rewrite Hid1, Hdet2; reflexivity).
  set (x2 := refreshed now2 d x1) in *.
  assert (Hid2 : id_key x2 = Some X)
    by (rewrite (touch_id_key _ _ _ _ Ht2); exact Hid1).
  split; [| split].
  - exists x2. split.
    + unfold r2. rewrite reconcile_ledger, HL1, (olds_split _ _ _ _ _ _ Ht2).
      rewrite app_assoc. apply entries_split; [| | exact Hid2].
      * rewrite ids_app, ids_olds, not_elem_of_app. split; [| exact HA].
        intros H. apply news_ids in H as [_ H]. apply H.
        rewrite ids_app, ids_cons, Hid1. apply elem_of_app. right. left.
      * rewrite ids_olds. exact HB.
    + apply refreshed_reopened. apply retired_status.
  - unfold r1. rewrite !reconcile_reopened.
    rewrite without_split by assumption.
    rewrite count_split. unfold reopens at 2. rewrite Hid, Hdet1. lia.
  - unfold r2. rewrite !reconcile_reopened. rewrite HL1.
    rewrite without_split by assumption.
    rewrite count_split. unfold reopens at 2. rewrite Hid1, Hdet2.
    unfold x1. rewrite retired_status. lia.
Qed.

(** C7.  Reconciliation preserves the invariant "[resolvedAt] is non-null
    iff [status == RESOLVED]": when every entry of the ledger passed in
    satisfies it, every entry of the ledger returned does. *)
Theorem reconcile_preserves_resolved_iff (now : string) (L D : list record) :
  Forall entry_ok L -> Forall entry_ok (_reconcile now L D).1.
Proof.
  intros HL. rewrite reconcile_ledger. apply Forall_app. split; apply Forall_forall; intros e He.
  - apply elem_of_news in He as (vid & d & -> & _). apply new_item_ok.
  - apply elem_of_olds in He as (old & Hold & Ht).
    rewrite Forall_forall in HL. specialize (HL old Hold).
    unfold touch in Ht. destruct (id_key old) as [vid |]; [| discriminate].
    injection Ht as <-. destruct (odict_get vid (by_id D)).
    + apply refreshed_ok. exact HL.
    + apply retired_ok. exact HL.
Qed.


(** Identity stays unique: when no two entries of the ledger are filed
    under the same id, no two entries of the ledger that [_reconcile]
    returns are. *)
Theorem ledger_ids_stay_unique (now : string) (L D : list record) :
  NoDup (ids L) -> NoDup (ids (_reconcile now L D).1).
Proof.
  intros HL. rewrite reconcile_ledger, ids_app, ids_olds.
  apply NoDup_app. split; [| split; [| exact HL]].
  - unfold news. unfold ids at 1. rewrite reverse_Permutation.
    fold (ids (omap (fresh_item now (by_id L)) (by_id D))).
    assert (Hgen : forall det : odict record,
               NoDup det.*1 -> (forall kv, kv ∈ det -> id_key kv.2 = Some kv.1) ->
               NoDup (ids (omap (fresh_item now (by_id L)) det)) /\
               (forall k, k ∈ ids (omap (fresh_item now (by_id L)) det) -> k ∈ det.*1)).
    { induction det as [| [k d] det IH]; intros Hnd Hkeys.
      { split; [constructor | intros k H; inversion H]. }
      apply NoDup_cons in Hnd as [Hk Hnd].
      destruct (IH Hnd (fun kv H => Hkeys kv (list_elem_of_further _ _ _ H))) as [IH1 IH2].
      destruct (fresh_item now (by_id L) (k, d)) as [e |] eqn:Hf;
        [rewrite (omap_cons_Some _ _ _ _ Hf) | rewrite (omap_cons_None _ _ _ Hf)].
      - unfold fresh_item in Hf. cbn [fst snd] in Hf.
        destruct (odict_get k (by_id L)); [discriminate |]. injection Hf as <-.
        pose proof (Hkeys (k, d) ltac:(left)) as Hkd. cbn [fst snd] in Hkd.
        rewrite ids_cons, new_item_id_key, Hkd. rewrite fmap_cons.
        cbn [fst option_list app]. split.
        + apply NoDup_cons. split; [| exact IH1]. intros Hin. apply Hk, IH2, Hin.
        + intros k' [-> | Hk']%elem_of_cons; [left | right; apply IH2; exact Hk'].
      - split; [exact IH1 |]. intros k' Hk'. right. apply IH2. exact Hk'. }
    apply Hgen; [apply by_id_NoDup |].
    intros [k d] Hin. cbn [fst snd]. apply (by_id_get D k d).
    apply odict_elem_get; [apply by_id_NoDup | exact Hin].
  - intros k Hk1 Hk2. apply news_ids in Hk1 as [_ Hk1]. contradiction.
Qed.

(** New-item ordering: the ledger that [_reconcile] returns is the new
    items followed by the entries that were there; the entries that were
    there keep their ids, the new items are filed under the detected ids
    that the ledger did not have, every one of them, and are OPEN with no
    [resolvedAtIso]. *)
Theorem new_items_come_first (now : string) (L D : list record) :
  exists fresh kept,
    (_reconcile now L D).1 = fresh ++ kept /\
    ids kept = ids L /\
    (forall k, k ∈ ids fresh <-> k ∈ ids D /\ k ∉ ids L) /\
    Forall (fun e => get e "status" = VStr "OPEN" /\ get e "resolvedAtIso" = VNone)
           fresh.
Proof.
  exists (news now L D), (olds now L D).
  split; [apply reconcile_ledger |]. split; [apply ids_olds |]. split.
  - intros k. split; [apply news_ids |]. intros [HD HL].
    apply by_id_mem in HD as [d Hd]. apply elem_of_ids. exists (new_item now d). split.
    + unfold news. rewrite elem_of_reverse, list_elem_of_omap.
      exists (k, d). split; [apply odict_get_elem; exact Hd |].
      unfold fresh_item. cbn [fst snd].
      rewrite (proj2 (by_id_None L k) HL). reflexivity.
    + rewrite new_item_id_key. apply (by_id_get D k d Hd).
  - apply Forall_forall. intros e He.
    apply elem_of_news in He as (vid & d & -> & _).
    unfold new_item. rewrite get_insert_eq, get_insert_ne by done.
    rewrite get_insert_eq. split; reflexivity.
Qed.

(** *** Instances and counterexamples *)



Lemma reconcile_keeps_history_witness :
  exists fresh kept,
    (_reconcile t1 [open_entry; resolved_entry] [stamped_finding]).1 = fresh ++ kept /\
    Forall2 (fun old e => e !! "id" = old !! "id" /\ same_entry old e)
            [open_entry; resolved_entry] kept /\
    length fresh = new (_reconcile t1 [open_entry; resolved_entry] [stamped_finding]).2 /\
    (forall k, k ∈ ids fresh -> k ∉ ids [open_entry; resolved_entry]).
Proof.
  apply (reconcile_keeps_history t1 [open_entry; resolved_entry] [stamped_finding]).
  constructor; [| constructor; [| constructor]]; vm_compute; eexists; reflexivity.
Defined.

(** The hypothesis of C3 is the data model's: an entry without an id,
    which no ledger of the scanner holds, would not be kept. *)
Example entry_without_id_is_dropped :
  (_reconcile t1 [anonymous_entry] []).1 = [].
Proof. vm_compute. reflexivity. Qed.

(** The first hypothesis of C1 is needed: a not-a-number in a descriptive
    field differs from itself, and the second run raises the flag. *)
Example rerun_flags_not_a_number :
  changed (_reconcile t1 (_reconcile t1 [] [nan_finding]).1 [nan_finding]).2 = true.
Proof. vm_compute. reflexivity. Qed.

Lemma resolve_then_reopen_witness :
  let r1 := _reconcile t1 [open_entry] [] in
  let r2 := _reconcile t2 r1.1 [token_finding] in
  (exists x2, filter (fun e => id_key e = Some "b-003") r2.1 = [x2] /\
              get x2 "status" = VStr "OPEN" /\ get x2 "resolvedAtIso" = VNone) /\
  reopened r1.2 = reopened (_reconcile t1 (without "b-003" [open_entry]) []).2 /\
  reopened r2.2 = S (reopened (_reconcile t2 (without "b-003" r1.1) [token_finding]).2).
Proof.
  apply (resolve_then_reopen t1 t2 "b-003" [open_entry] [] [token_finding] open_entry).
  - vm_compute. apply NoDup_singleton.
  - left.
  - vm_compute. reflexivity.
  - vm_compute. reflexivity.
  - apply not_elem_of_nil.
  - vm_compute. left.
Defined.

Lemma reconcile_preserves_resolved_iff_witness :
  Forall entry_ok [open_entry; resolved_entry] /\
  Forall entry_ok (_reconcile t1 [open_entry; resolved_entry] [token_finding]).1.
Proof.
  assert (H : Forall entry_ok [open_entry; resolved_entry]).
  { constructor; [| constructor; [| constructor]].
    - split; intros H;
        [exfalso; apply H; vm_compute; reflexivity | vm_compute in H; discriminate].
    - split; intros _; [vm_compute; reflexivity | vm_compute; discriminate]. }
  split; [exact H |].
  exact (reconcile_preserves_resolved_iff t1 [open_entry; resolved_entry]
           [token_finding] H).
Defined.

Lemma ledger_ids_stay_unique_witness :
  NoDup (ids [open_entry; resolved_entry]) /\
  NoDup (ids (_reconcile t1 [open_entry; resolved_entry] [stamped_finding]).1).
Proof.
  assert (H : NoDup (ids [open_entry; resolved_entry])) by (vm_compute; compute_done).
  split; [exact H |].
  exact (ledger_ids_stay_unique t1 [open_entry; resolved_entry] [stamped_finding] H).
Defined.

End ReconcileClaims.

(** ** The detection pipeline *)

Module DetectFacts.
Import Detect.

(** *** The patterns on sample texts *)

Example retention_regex_ignores_case :
  re_search RETENTION_REGEX true "We Keep   Forever what you type."
  = Ok (Some "Keep   Forever").
Proof. vm_compute. reflexivity. Qed.

Example retention_regex_is_greedy :
  re_search RETENTION_REGEX true "you can not ever delete it, or delete us"
  = Ok (Some "can not ever delete it, or delete").
Proof. vm_compute. reflexivity. Qed.

Example token_pattern_leftmost_match :
  re_search TOKEN_PATTERN false "sk_live_short, then sk_live_0123456789!"
  = Ok (Some "sk_live_0123456789").
Proof. vm_compute. reflexivity. Qed.

(** With the backslashes doubled, the e-mail pattern wants a backslash
    after the host name. *)
Example email_pattern_wants_backslash :
  re_search EMAIL_PATTERN true "write to ann@example.com" = Ok None /\
  re_search EMAIL_PATTERN true "write to ann@example\.com"
    = Ok (Some "ann@example\.com").
Proof. vm_compute. split; reflexivity. Qed.

Lemma bind_Ok {A B} (a : A) (f : A -> result B) : (Ok a ≫= f) = f a.
Proof. reflexivity. Qed.

(** [re.compile] accepts the e-mail pattern of the heuristic detector. *)
Lemma email_search_returns doc_text :
  exists m, re_search EMAIL_PATTERN true doc_text = Ok m.
Proof.
  unfold re_search, Re.search.
  destruct (Re.compile EMAIL_PATTERN) as [e | r] eqn:E.
  - vm_compute in E. discriminate.
  - eexists. reflexivity.
Qed.

(** It rejects the telephone pattern: with the backslashes doubled in a
    raw string, the set has the range from backslash to "(". *)
Lemma phone_pattern_rejected :
  Re.compile PHONE_PATTERN = inl (Re.bad_character_range "\\" "(").
Proof. vm_compute. reflexivity. Qed.

Lemma phone_search_raises doc_text :
  re_search PHONE_PATTERN false doc_text
  = Raise (re_error (Re.bad_character_range "\\" "(")).
Proof. unfold re_search, Re.search. rewrite phone_pattern_rejected. reflexivity. Qed.

(** So the heuristic detector raises on every input, at its second line. *)
Lemma heuristic_raises doc_text policies existing_open :
  _heuristic_violations doc_text policies existing_open
  = Raise (re_error (Re.bad_character_range "\\" "(")).
Proof.
  unfold _heuristic_violations.
  destruct (email_search_returns doc_text) as [m ->].
  rewrite bind_Ok, phone_search_raises. reflexivity.
Qed.

(** The [except] clause of [_analyze]. *)
Lemma analyze_fallback_eq doc_text api_key service policies existing_open e :
  no_key api_key = false ->
  service doc_text policies existing_open = Raises e ->
  _analyze api_key service doc_text policies existing_open
  = _heuristic_violations doc_text policies existing_open.
Proof.
  intros Hkey Hs. unfold _analyze, _openai_violations. rewrite Hkey, Hs. reflexivity.
Qed.

(** A response that [json.loads] rejects comes to no detection. *)
Lemma unparseable_reply_is_empty service doc_text policies existing_open :
  service doc_text policies existing_open = Unparseable ->
  _openai_violations service doc_text policies existing_open = Ok [].
Proof. intros H. unfold _openai_violations. rewrite H. reflexivity. Qed.

End DetectFacts.

(** ** The claims about the detection pipeline *)

Module DetectClaims.
Import Detect DetectFacts Samples.

(** C2.  On the document text "cannot delete" the heuristic detector
    gives no candidate: the call raises [re.error] (the telephone pattern
    does not compile), and its retention pattern, written with doubled
    backslashes, does not find the phrase that the module's
    [RETENTION_REGEX] finds. *)
Theorem cannot_delete_is_missed :
  _heuristic_violations "cannot delete" [] []
    = Raise (re_error (Re.bad_character_range "\\" "(")) /\
  re_search RETENTION_PATTERN true "cannot delete" = Ok None /\
  re_search RETENTION_REGEX true "cannot delete" = Ok (Some "cannot delete").
Proof.
  split; [apply heuristic_raises |].
  split; vm_compute; reflexivity.
Qed.

(** C8.  On the document text "sk_live_abcdef1234567890" the token
    pattern finds the token, but the heuristic detector gives no candidate:
    the call raises [re.error] before the rules are looked at. *)
Theorem live_token_is_missed :
  re_search TOKEN_PATTERN false "sk_live_abcdef1234567890"
    = Ok (Some "sk_live_abcdef1234567890") /\
  _heuristic_violations "sk_live_abcdef1234567890" [secrets_policy] []
    = Raise (re_error (Re.bad_character_range "\\" "(")).
Proof.
  split; [vm_compute; reflexivity | apply heuristic_raises].
Qed.

(** The heuristic detector raises [re.error] on every input: [re.search]
    is called with the telephone pattern, which does not compile, before
    any rule is looked at. *)
Theorem heuristic_detector_always_raises (doc_text : string)
    (policies : list Policy.t) (existing_open : list record) :
  _heuristic_violations doc_text policies existing_open
  = Raise (re_error (Re.bad_character_range "\\" "(")).
Proof. apply heuristic_raises. Qed.

(** C6 (as amended).  When a credential is configured and the semantic
    detector raises, [_analyze] catches the exception and returns what the
    heuristic detector returns for the same document, policies and open
    violations. *)
Theorem analyze_falls_back_on_heuristics (api_key : option string)
    (service : string -> list Policy.t -> list record -> reply)
    (doc_text : string) (policies : list Policy.t) (existing_open : list record)
    (e : exn) :
  no_key api_key = false ->
  service doc_text policies existing_open = Raises e ->
  _analyze api_key service doc_text policies existing_open
  = _heuristic_violations doc_text policies existing_open.
Proof.
  intros Hkey Hs. exact (analyze_fallback_eq _ _ _ _ _ e Hkey Hs).
Qed.

Lemma analyze_falls_back_on_heuristics_witness :
  _analyze (Some "sk-test") failing_service "Anyone with the link can view."
           [secrets_policy] []
  = _heuristic_violations "Anyone with the link can view." [secrets_policy] [].
Proof.
  apply (analyze_falls_back_on_heuristics (Some "sk-test") failing_service
           "Anyone with the link can view." [secrets_policy] []
           (service_error "Request timed out.")).
  - reflexivity.
  - reflexivity.
Defined.

(** C6 as stated fails: when the semantic detector raises, what [_analyze]
    returns is not the empty list. *)
Lemma failed_detector_is_not_empty_list :
  _analyze (Some "sk-test") failing_service "Anyone with the link can view."
           [secrets_policy] []
  <> Ok [].
Proof.
  rewrite (analyze_fallback_eq "Anyone with the link can view." (Some "sk-test")
             failing_service [secrets_policy] [] (service_error "Request timed out.")
             eq_refl eq_refl).
  rewrite heuristic_raises. discriminate.
Qed.

End DetectClaims.

(** ** The scan orchestrator *)

Module ScanFacts.
Import Reconcile Scan.

(** *** The orchestrator on the sample surroundings *)

Example first_scan_loads_policies_sorted :
  Policy.id <$> policies (state (scan_once Samples.world_with_policies true
                                           Samples.fresh_run).2)
  = ["data-retention"; "secrets-handling"].
Proof. vm_compute. reflexivity. Qed.

Example first_scan_commits :
  let r := (scan_once Samples.world_with_policies true Samples.fresh_run).2 in
  (last_scan_iso (state r), last_scan_error (state r), _doc_mtime (state r),
   _policies_mtime (state r), ticks r, analyses r)
  = (Some "2024-05-01T10:00:03Z", None, Some 1714557600%Z, Some 1714550500%Z, 4, 1).
Proof. vm_compute. reflexivity. Qed.

Lemma bind_run {A B} (m : M A) (f : A -> M B) (r : run) :
  (m ≫= f) r = match m r with
               | (Ok a, r') => f a r'
               | (Raise e, r') => (Raise e, r')
               end.
Proof. reflexivity. Qed.

Lemma write_then {B} (f : ScanState -> ScanState) (k : M B) (r : run) :
  (write f ≫= fun _ => k) r = k (Run (f (state r)) (ticks r) (analyses r)).
Proof. reflexivity. Qed.

Lemma ret_run {A} (a : A) (r : run) : ret a r = (Ok a, r).
Proof. reflexivity. Qed.

Lemma same_but_policies_refl s : same_but_policies s s.
Proof. repeat split. Qed.

Lemma load_policy_run w p r :
  load_policy w p r =
  (match content p with
   | Some text =>
       Ok (Policy.Make (replace "_" "-" (stem p)) (title (replace "_" " " (stem p)))
                       ("Loaded from disk: " +:+ stem p +:+ ".md") "1.0"
                       (clock w (ticks r)) text)
   | None => Raise (os_error (stem p +:+ ".md"))
   end,
   Run (state r) (S (ticks r)) (analyses r)).
Proof. unfold load_policy. rewrite !bind_run. cbn. destruct (content p); reflexivity. Qed.

Lemma load_policies_run w files r :
  state (load_policies w files r).2 = state r /\
  analyses (load_policies w files r).2 = analyses r /\
  ticks r <= ticks (load_policies w files r).2 /\
  ((exists ps, (load_policies w files r).1 = Ok ps) <-> all_readable files = true).
Proof.
  revert r. induction files as [| p files IH]; intros r.
  - cbn. repeat split; try lia; eauto.
  - cbn [load_policies all_readable forallb]. rewrite bind_run, load_policy_run.
    destruct (content p) as [text |].
    + rewrite bind_run.
      specialize (IH (Run (state r) (S (ticks r)) (analyses r))).
      destruct IH as (H1 & H2 & H3 & H4). fold (all_readable files).
      destruct (load_policies w files _) as [[ps | e] r']; cbn in *.
      * repeat split; try assumption; try lia.
        -- intros _. apply H4. eauto.
        -- eauto.
      * repeat split; try assumption; try lia.
        -- intros [ps Hps]. discriminate.
        -- intros H. apply H4 in H as [ps Hps]. discriminate.
    + cbn. repeat split; try lia.
      intros [ps Hps]. discriminate.
Qed.

(** *** The reload of the policies *)

Lemma load_from_disk_run w r :
  analyses (_load_policies_from_disk w false r).2 = analyses r /\
  ticks r <= ticks (_load_policies_from_disk w false r).2 /\
  same_but_policies (state r) (state (_load_policies_from_disk w false r).2) /\
  ((unchanged w (state r) = true /\ _load_policies_from_disk w false r = (Ok false, r))
   \/ (unchanged w (state r) = false /\ readable w = true /\
       (_load_policies_from_disk w false r).1 = Ok true /\
       _policies_mtime (state (_load_policies_from_disk w false r).2)
         = _policies_max_mtime w)
   \/ (readable w = false /\
       (exists e, (_load_policies_from_disk w false r).1 = Raise e) /\
       state (_load_policies_from_disk w false r).2 = state r)).
Proof.
  unfold _load_policies_from_disk. rewrite bind_run. cbn [read negb andb].
  fold (unchanged w (state r)).
  destruct (unchanged w (state r)) eqn:Hun.
  - cbn. repeat split; try lia. left. split; reflexivity.
  - rewrite bind_run. unfold readable.
    destruct (policies_dir w) as [files |].
    + destruct (load_policies_run w (sorted files) r) as (H1 & H2 & H3 & H4).
      destruct (load_policies w (sorted files) r) as [[ps | e] r'] eqn:E;
        cbn [fst snd] in *.
      * rewrite write_then, ret_run. cbn [fst snd state analyses ticks].
        rewrite H1. repeat split; try assumption. right. left. repeat split.
        apply H4. eauto.
      * rewrite H1. repeat split; try assumption. right. right. repeat split.
        -- destruct (all_readable (sorted files)); [| reflexivity].
           destruct (proj2 H4 eq_refl) as [ps Hps]. discriminate.
        -- eauto.
    + rewrite ret_run, write_then, ret_run. cbn [fst snd state analyses ticks].
      repeat split; try lia. right. left. repeat split.
Qed.

Lemma reload_run w r :
  exists pc ra,
    reload w r = (Ok pc, ra) /\
    analyses ra = analyses r /\ ticks r <= ticks ra /\
    same_but_policies (state r) (state ra) /\
    (pc = false -> state ra = state r) /\
    (is_Some (_policies_max_mtime w) -> calm w (state ra)).
Proof.
  unfold reload, try_except.
  destruct (load_from_disk_run w r) as (H1 & H2 & H3 & H4).
  destruct (_load_policies_from_disk w false r) as [[pc | e] ra] eqn:E; cbn in *.
  - exists pc, ra. repeat split; try assumption; try apply H3.
    + intros ->. destruct H4 as [[_ H] | [(_ & _ & H & _) | (_ & [e H] & _)]]; try discriminate.
      injection H as <-. reflexivity.
    + intros [latest Hl]. destruct H4 as [[Hun H] | [(_ & _ & _ & H) | (_ & [e H] & _)]].
      * injection H as _ <-. left. exact Hun.
      * left. unfold unchanged. rewrite H, Hl. apply Z.leb_refl.
      * discriminate.
  - exists false, ra. repeat split; try assumption; try apply H3.
    + intros _. destruct H4 as [[_ H] | [(_ & _ & H & _) | (_ & _ & H)]]; try discriminate.
      exact H.
    + intros _. destruct H4 as [[_ H] | [(_ & _ & H & _) | (Hr & _ & H)]]; try discriminate.
      right. exact Hr.
Qed.

Lemma reload_calm w r :
  calm w (state r) ->
  exists ra, reload w r = (Ok false, ra) /\
             state ra = state r /\ analyses ra = analyses r.
Proof.
  intros Hcalm. unfold reload, try_except.
  destruct (load_from_disk_run w r) as (H1 & H2 & H3 & H4).
  destruct (_load_policies_from_disk w false r) as [[pc | e] ra] eqn:E;
    cbn [fst snd] in *.
  - destruct H4 as [[_ H] | [(Hun & Hr & _) | (_ & [e H] & _)]]; try discriminate.
    + injection H as -> ->. exists r. repeat split.
    + destruct Hcalm as [Hc | Hc]; congruence.
  - exists ra. destruct H4 as [[_ H] | [(_ & _ & H & _) | (_ & _ & H)]]; try discriminate.
    rewrite ret_run. repeat split; assumption.
Qed.

Lemma calm_same_signals w w' s :
  _policies_max_mtime w' = _policies_max_mtime w -> readable w' = readable w ->
  calm w s -> calm w' s.
Proof. unfold calm, unchanged. intros -> ->. tauto. Qed.

(** *** One call of [scan_once] *)

Lemma scan_once_missing w force r ra pc :
  document w = None -> reload w r = (Ok pc, ra) ->
  scan_once w force r =
  (Ok tt,
   Run (set_last_scan_iso (Some (clock w (ticks ra)))
          (set_last_scan_error (Some ("Missing source file: " +:+ GOOGLE_DRIVE_DOC w))
             (state ra)))
       (S (ticks ra)) (analyses ra)).
Proof.
  intros Hdoc Hre. unfold scan_once. fold (reload w).
  rewrite bind_run, Hre, Hdoc. reflexivity.
Qed.

(** The call on a document that exists: skipped when not due, else one
    analysis and, when it returns, the commit. *)
Lemma scan_once_present w force r ra pc mtime content :
  document w = Some (mtime, content) -> reload w r = (Ok pc, ra) ->
  scan_once w force r =
  if negb force && negb pc && negb (doc_changed mtime (state ra)) then (Ok tt, ra)
  else
    match Detect._analyze (api_key w) (service w (analyses ra)) (Text.strip content)
            (policies (state ra))
            (filter (fun v => is_open v = true) (violations (state ra))) with
    | Ok detected_open =>
        (Ok tt,
         Run (set_last_scan_error None
                (set_last_scan_iso (Some (clock w (S (ticks ra))))
                   (set_violations
                      (_reconcile (clock w (ticks ra)) (violations (state ra))
                                  detected_open).1
                      (set_doc_mtime (Some mtime) (state ra)))))
             (S (S (ticks ra))) (S (analyses ra)))
    | Raise e =>
        (Raise e, Run (set_doc_mtime (Some mtime) (state ra)) (ticks ra) (S (analyses ra)))
    end.
Proof.
  intros Hdoc Hre. unfold scan_once. fold (reload w).
  rewrite bind_run, Hre, Hdoc. rewrite bind_run. cbn [read].
  fold (doc_changed mtime (state ra)).
  destruct (negb force && negb pc && negb (doc_changed mtime (state ra)));
    [reflexivity |].
  rewrite write_then, bind_run. cbn [read state]. rewrite bind_run.
  unfold analyze. cbn [state ticks analyses set_doc_mtime policies violations].
  destruct (Detect._analyze _ _ _ _ _); reflexivity.
Qed.

End ScanFacts.

(** ** The claims about the scan orchestrator *)

Module ScanClaims.
Import Reconcile Scan ScanFacts Samples.

(** C10.  When the monitored document does not exist, [scan_once] returns
    with [last_scan_error] set and with [last_scan_iso] set to a reading of
    the clock taken in this call: the time stamp advances on such a cycle
    too.  The ledger is as it was and no analysis is run. *)
Theorem missing_document_stamps_scan (w : world) (force : bool) (r : run) :
  document w = None ->
  exists r',
    scan_once w force r = (Ok tt, r') /\
    last_scan_error (state r')
      = Some ("Missing source file: " +:+ GOOGLE_DRIVE_DOC w) /\
    last_scan_iso (state r') = Some (clock w (Nat.pred (ticks r'))) /\
    ticks r < ticks r' /\
    violations (state r') = violations (state r) /\
    analyses r' = analyses r.
Proof.
  intros Hdoc.
  destruct (reload_run w r) as (pc & ra & Hre & Han & Hti & Hsame & _).
  eexists. split; [apply (scan_once_missing w force r ra pc Hdoc Hre) |].
  cbn. repeat split; try assumption; try lia. apply Hsame.
Qed.

(** C5 (as amended).  Due-gating, when the document exists and there is at
    least one policy file: after a call of [scan_once] that returned, a
    call with [force = False] that finds the same modification times (of
    the document, and the latest of the policy files) returns without an
    analysis and leaves the scan state as it is. *)
Theorem second_scan_is_noop (w w' : world) (force : bool) (r r1 : run)
    (mtime : Z) (content content' : string) :
  document w = Some (mtime, content) ->
  document w' = Some (mtime, content') ->
  is_Some (_policies_max_mtime w) ->
  _policies_max_mtime w' = _policies_max_mtime w ->
  readable w' = readable w ->
  scan_once w force r = (Ok tt, r1) ->
  exists r2,
    scan_once w' false r1 = (Ok tt, r2) /\
    state r2 = state r1 /\ analyses r2 = analyses r1.
Proof.
  intros Hdoc Hdoc' Hpol Hmax Hread Hfirst.
  destruct (reload_run w r) as (pc & ra & Hre & _ & _ & _ & _ & Hcalm).
  specialize (Hcalm Hpol).
  rewrite (scan_once_present w force r ra pc mtime content Hdoc Hre) in Hfirst.
  (* what the first call leaves behind *)
  assert (H1 : calm w (state r1) /\ doc_changed mtime (state r1) = false).
  { destruct (negb force && negb pc && negb (doc_changed mtime (state ra))) eqn:Hdue.
    - injection Hfirst as <-. split; [exact Hcalm |].
      apply andb_prop in Hdue as [_ Hdue]. apply negb_true_iff in Hdue. exact Hdue.
    - destruct (Detect._analyze _ _ _ _ _) as [det | e]; [| discriminate].
      injection Hfirst as <-. split.
      + exact Hcalm.
      + unfold doc_changed. cbn. apply Z.ltb_irrefl. }
  destruct H1 as [Hcalm1 Hdoc1].
  apply (calm_same_signals w w' (state r1) Hmax Hread) in Hcalm1.
  destruct (reload_calm w' r1 Hcalm1) as (rb & Hre2 & Hst & Han).
  exists rb. split; [| split; assumption].
  rewrite (scan_once_present w' false r1 rb false mtime content' Hdoc' Hre2).
  rewrite Hst, Hdoc1. reflexivity.
Qed.

(** *** Instances and counterexamples *)

Lemma missing_document_stamps_scan_witness :
  exists r',
    scan_once world_without_document false fresh_run = (Ok tt, r') /\
    last_scan_error (state r')
      = Some ("Missing source file: " +:+ GOOGLE_DRIVE_DOC world_without_document) /\
    last_scan_iso (state r')
      = Some (clock world_without_document (Nat.pred (ticks r'))) /\
    ticks fresh_run < ticks r' /\
    violations (state r') = violations (state fresh_run) /\
    analyses r' = analyses fresh_run.
Proof.
  apply (missing_document_stamps_scan world_without_document false fresh_run).
  reflexivity.
Defined.

Lemma second_scan_is_noop_witness :
  exists r2,
    scan_once world_edited_in_place false
              (scan_once world_with_policies true fresh_run).2
      = (Ok tt, r2) /\
    state r2 = state (scan_once world_with_policies true fresh_run).2 /\
    analyses r2 = analyses (scan_once world_with_policies true fresh_run).2.
Proof.
  apply (second_scan_is_noop world_with_policies world_edited_in_place true fresh_run
           (scan_once world_with_policies true fresh_run).2
           1714557600 "Meeting notes, nothing to report."
           "Meeting notes. Token: sk_live_abcdef1234567890").
  - reflexivity.
  - reflexivity.
  - vm_compute. eexists. reflexivity.
  - vm_compute. reflexivity.
  - vm_compute. reflexivity.
  - apply injective_projections; [vm_compute; reflexivity | reflexivity].
Defined.

(** C5 as stated fails: with no policy file the reload finds no time stamp
    to compare, reports a change every time, and the second call runs the
    analysis again and moves [last_scan_iso]. *)
Lemma rescan_without_policy_files :
  (scan_once world_without_policies true fresh_run).1 = Ok tt /\
  (scan_once world_without_policies false
     (scan_once world_without_policies true fresh_run).2).1 = Ok tt /\
  analyses (scan_once world_without_policies false
              (scan_once world_without_policies true fresh_run).2).2
    = S (analyses (scan_once world_without_policies true fresh_run).2) /\
  state (scan_once world_without_policies false
           (scan_once world_without_policies true fresh_run).2).2
    <> state (scan_once world_without_policies true fresh_run).2.
Proof.
  split; [vm_compute; reflexivity |]. split; [vm_compute; reflexivity |].
  split; [vm_compute; reflexivity |].
  intros H. apply (f_equal last_scan_iso) in H. vm_compute in H. discriminate.
Qed.

End ScanClaims.

(** ** Scan cycles at once *)

Module CycleFacts.
Import Cycle.

Lemma at_move_eq t p l c : at_ t (move t p l c) = p.
Proof. unfold at_, move. cbn. rewrite decide_True by reflexivity. reflexivity. Qed.

Lemma at_move_ne t t' p l c : t' <> t -> at_ t' (move t p l c) = at_ t' c.
Proof. intros H. unfold at_, move. cbn. rewrite decide_False by exact H. reflexivity. Qed.

Lemma lock_inv_start : lock_inv start.
Proof. intros t. cbn. split; discriminate. Qed.

(** A move of [t] keeps the invariant when the lock goes with it. *)
Lemma lock_inv_move t p l c :
  lock_inv c ->
  (locked p = true <-> l = Some t) ->
  (forall t', t' <> t -> (lock c = Some t' <-> l = Some t')) ->
  lock_inv (move t p l c).
Proof.
  intros Hinv Hp Hl t'. destruct (decide (t' = t)) as [-> | Hne].
  - rewrite at_move_eq. exact Hp.
  - rewrite at_move_ne by exact Hne. rewrite (Hinv t'). apply Hl, Hne.
Qed.

Lemma lock_inv_step c c' : lock_inv c -> step c c' -> lock_inv c'.
Proof.
  intros Hinv Hstep.
  assert (Hheld : forall t, locked (at_ t c) = true -> lock c = Some t)
    by (intros t; apply Hinv).
  assert (Hfree : forall t, locked (at_ t c) = false -> lock c <> Some t).
  { intros t Hf Hl. apply Hinv in Hl. congruence. }
  inversion Hstep as [t ? Hat Hl | t ? Hat | t ? Hat | t ? Hat | n ? Hat | ? Hat
                      | t ? Hat | t ? Hat Hl | t ? Hat | ? Hat Hl | ? Hat];
    subst; apply lock_inv_move; try exact Hinv; cbn [locked];
    try (specialize (Hheld _ (f_equal locked Hat)));
    try (specialize (Hfree _ (f_equal locked Hat)));
    try (intros t' Hne);
    split; intros H; try discriminate; try congruence;
    try (exfalso; congruence).
Qed.

Lemma lock_inv_reachable c : reachable c -> lock_inv c.
Proof.
  induction 1 as [| c c' _ IH Hstep]; [apply lock_inv_start |].
  eapply lock_inv_step; eassumption.
Qed.

(** Every thread can go from the start of a cycle to [_reconcile] while
    the lock is free. *)
Lemma reach_reconcile t c :
  reachable c -> at_ t c = Idle -> lock c = None -> reachable (to_reconcile t c).
Proof.
  intros Hr Hat Hl. unfold to_reconcile.
  apply (reach_step (move t Detecting None (move t Gate (Some t) c))).
  - apply (reach_step (move t Gate (Some t) c)).
    + apply (reach_step c); [exact Hr |]. apply enter; assumption.
    + apply due. apply at_move_eq.
  - apply (detected t (move t Detecting None (move t Gate (Some t) c))).
    apply at_move_eq.
Qed.

End CycleFacts.

(** ** The claim about concurrent cycles *)

Module CycleClaims.
Import Cycle CycleFacts.

(** C9 (as amended).  The lock of the scanner serializes the locked
    sections of [scan_once] (the due check with the snapshot, and the
    commit) and of the background loop: in no reachable configuration of
    the loop and any number of forced scans are two threads both inside a
    [with self._lock] block. *)
Theorem locked_sections_exclude (c : config) (t t' : thread) :
  reachable c -> t <> t' ->
  ~ (locked (at_ t c) = true /\ locked (at_ t' c) = true).
Proof.
  intros Hr Hne [H1 H2]. pose proof (lock_inv_reachable c Hr) as Hinv.
  apply (Hinv t) in H1. apply (Hinv t') in H2. congruence.
Qed.

Lemma locked_sections_exclude_witness :
  ~ (locked (at_ (Api 0) (move (Api 0) Gate (Some (Api 0))
                            (to_reconcile (Api 1) (to_reconcile Background start))))
     = true /\
     locked (at_ (Api 1) (move (Api 0) Gate (Some (Api 0))
                            (to_reconcile (Api 1) (to_reconcile Background start))))
     = true).
Proof.
  apply (locked_sections_exclude
           (move (Api 0) Gate (Some (Api 0))
                 (to_reconcile (Api 1) (to_reconcile Background start)))
           (Api 0) (Api 1)).
  - apply (reach_step (to_reconcile (Api 1) (to_reconcile Background start))).
    + apply (reach_reconcile (Api 1) (to_reconcile Background start));
        [| reflexivity | reflexivity].
      apply (reach_reconcile Background start);
        [apply reach_start | reflexivity | reflexivity].
    + apply (enter (Api 0)); reflexivity.
  - discriminate.
Defined.

(** C9 as stated fails: detection and reconciliation run outside the lock,
    and two forced scans (or the loop and a forced scan) can both be in
    [_reconcile]. *)
Lemma two_cycles_reconcile_together :
  ~ (forall c t t', reachable c -> t <> t' ->
                    ~ (at_ t c = Reconciling /\ at_ t' c = Reconciling)).
Proof.
  intros H.
  apply (H (to_reconcile (Api 1) (to_reconcile (Api 0) start)) (Api 0) (Api 1)).
  - apply (reach_reconcile (Api 1) (to_reconcile (Api 0) start));
      [| reflexivity | reflexivity].
    apply (reach_reconcile (Api 0) start);
      [apply reach_start | reflexivity | reflexivity].
  - discriminate.
  - split; reflexivity.
Qed.

End CycleClaims.

(** ** More on the reconciliation engine *)

Module LedgerFacts.
Import Reconcile ReconcileFacts Ledger.

(** *** The [changed] flag *)

Lemma overwrite_flag d st k : st.2 = true -> (overwrite d st k).2 = true.
Proof. unfold overwrite. destruct (_ && _); [reflexivity | exact id]. Qed.

Lemma overwrite_fold_flag d ks st :
  st.2 = true -> (fold_left (overwrite d) ks st).2 = true.
Proof.
  revert st. induction ks as [| k ks IH]; intros st H; [exact H |].
  cbn [fold_left]. apply IH, overwrite_flag, H.
Qed.

(** A pass over the fields that leaves the flag down has written
    nothing. *)
Lemma overwrite_fold_quiet d ks st :
  (fold_left (overwrite d) ks st).2 = false ->
  fold_left (overwrite d) ks st = st.
Proof.
  revert st. induction ks as [| k ks IH]; intros st H; [reflexivity |].
  cbn [fold_left] in *. unfold overwrite at 2 in H. unfold overwrite at 2.
  destruct (_ && _) eqn:E.
  - rewrite overwrite_fold_flag in H by reflexivity. discriminate.
  - apply IH, H.
Qed.

Lemma refresh_flag now d status old c :
  c = true -> (refresh now d status old c).2 = true.
Proof.
  intros ->. unfold refresh. cbv zeta. cbn [fst snd].
  apply overwrite_fold_flag. reflexivity.
Qed.

Lemma refresh_quiet now d old c :
  (refresh now d (status_of old) old c).2 = false ->
  c = false /\ py_eq (status_of old) (VStr "RESOLVED") = false /\
  refreshed now d old = <["lastSeenIso" := VStr now]> (backfill now old).
Proof.
  intros H. rewrite <- (refresh_record now d old c).
  unfold refresh in *. cbv zeta in *. cbn [fst snd] in *.
  pose proof (overwrite_fold_quiet _ _ _ H) as Hq. rewrite Hq in H. cbn [snd] in H.
  apply orb_false_iff in H as [Hc Hr]. rewrite Hq. cbn [fst]. rewrite Hr.
  repeat split; try assumption.
Qed.

Lemma visit_flag now det a old :
  acc_changed a = true -> acc_changed (visit now det a old) = true.
Proof.
  intros H. unfold visit. destruct (id_key old); [| exact H].
  destruct (odict_get _ _) as [d |].
  - pose proof (refresh_flag now d (get_or old "status" (VStr "OPEN")) old _ H) as Hf.
    destruct (refresh _ _ _ _ _) as [[old' reopen] chg]. exact Hf.
  - destruct (retire _ _ _) as [old' res]. cbn [acc_changed]. rewrite H. reflexivity.
Qed.

Lemma visits_flag now det L a :
  acc_changed a = true -> acc_changed (fold_left (visit now det) L a) = true.
Proof.
  revert a. induction L as [| old L IH]; intros a H; [exact H |].
  cbn [fold_left]. apply IH, visit_flag, H.
Qed.

Lemma visit_quiet now det a old :
  acc_changed (visit now det a old) = false ->
  acc_changed a = false /\ reopens det old = false /\ resolves det old = false /\
  touch now det old = seen now det old.
Proof.
  unfold visit, reopens, resolves, touch, seen.
  destruct (id_key old) as [vid |]; [| intros H; repeat split; exact H].
  fold (status_of old). destruct (odict_get vid det) as [d |].
  - pose proof (refresh_quiet now d old (acc_changed a)) as Hq.
    destruct (refresh _ _ _ _ _) as [[old' reopen] chg]. cbn [acc_changed snd] in *.
    intros H. destruct (Hq H) as (Ha & Hr & He). rewrite He. repeat split; assumption.
  - pose proof (retire_record now old) as H1. pose proof (retire_flag now old) as H2.
    destruct (retire _ _ _) as [old' res]. cbn [acc_changed fst snd] in *.
    intros H. apply orb_false_iff in H as [Ha Hres]. subst res.
    apply negb_false_iff in Hres. repeat split; try assumption.
    + rewrite Hres. reflexivity.
    + unfold retired. rewrite Hres. reflexivity.
Qed.

Lemma visits_quiet now det L a :
  acc_changed (fold_left (visit now det) L a) = false ->
  acc_changed a = false /\
  Forall (fun old => reopens det old = false /\ resolves det old = false /\
                     touch now det old = seen now det old) L.
Proof.
  revert a. induction L as [| old L IH]; intros a H; [split; [exact H | constructor] |].
  cbn [fold_left] in H. apply IH in H as [H HL].
  apply visit_quiet in H as (Ha & H). split; [exact Ha |].
  constructor; assumption.
Qed.

Lemma add_new_flag now ex a kv :
  acc_changed a = true -> acc_changed (add_new now ex a kv) = true.
Proof. unfold add_new. destruct (odict_get _ _); [exact id | reflexivity]. Qed.

Lemma adds_flag now ex det a :
  acc_changed a = true -> acc_changed (fold_left (add_new now ex) det a) = true.
Proof.
  revert a. induction det as [| kv det IH]; intros a H; [exact H |].
  cbn [fold_left]. apply IH, add_new_flag, H.
Qed.

Lemma adds_quiet now ex det a :
  acc_changed (fold_left (add_new now ex) det a) = false ->
  fold_left (add_new now ex) det a = a.
Proof.
  revert a. induction det as [| kv det IH]; intros a H; [reflexivity |].
  cbn [fold_left] in *. unfold add_new at 2 in H. unfold add_new at 2.
  destruct (odict_get kv.1 ex).
  - apply IH, H.
  - rewrite adds_flag in H by reflexivity. discriminate.
Qed.

Lemma reconcile_new now L D : new (_reconcile now L D).2 = length (news now L D).
Proof.
  unfold _reconcile, news. cbn [snd new].
  rewrite adds_new_count, visits_new_count, length_reverse. reflexivity.
Qed.

Lemma reconcile_quiet now L D :
  changed (_reconcile now L D).2 = false ->
  (_reconcile now L D).1 = omap (seen now (by_id D)) L.
Proof.
  unfold _reconcile. cbn [fst snd changed]. intros H.
  pose proof (adds_quiet _ _ _ _ H) as Hq. rewrite Hq in H |- *.
  rewrite visits_updated. cbn [updated app].
  apply visits_quiet in H as [_ H]. clear Hq.
  induction H as [| old L' (_ & _ & Ht) _ IH]; [reflexivity |].
  destruct (seen now (by_id D) old) as [e |] eqn:E.
  - rewrite (omap_cons_Some _ _ _ _ E), (omap_cons_Some _ _ _ _ Ht). f_equal. exact IH.
  - rewrite (omap_cons_None _ _ _ E), (omap_cons_None _ _ _ Ht). exact IH.
Qed.

Lemma flag_covers_counters now L D :
  changed (_reconcile now L D).2 = false ->
  new (_reconcile now L D).2 = 0 /\ reopened (_reconcile now L D).2 = 0 /\
  resolved (_reconcile now L D).2 = 0.
Proof.
  intros H. rewrite reconcile_reopened, reconcile_resolved.
  unfold _reconcile in *. cbn [fst snd changed new] in *.
  pose proof (adds_quiet _ _ _ _ H) as Hq. rewrite Hq in H |- *.
  rewrite visits_new_count. cbn [new_count].
  apply visits_quiet in H as [_ H]. clear Hq. split; [reflexivity |].
  induction H as [| old L' (Hr & Hs & _) _ [IH1 IH2]]; [split; reflexivity |].
  cbn [List.filter]. rewrite Hr, Hs. split; assumption.
Qed.

Lemma seen_same now det L :
  Forall2 (fun old e => forall k, k ≠ "firstSeenIso" -> k ≠ "lastSeenIso" ->
                                  e !! k = old !! k)
          (filter has_id L) (omap (seen now det) L).
Proof.
  induction L as [| old L IH]; [constructor |].
  rewrite filter_cons. destruct (decide (has_id old)) as [[vid Hid] | Hno].
  - rewrite (omap_cons_Some _ old (match odict_get vid det with
                                   | Some _ => <["lastSeenIso" := VStr now]> (backfill now old)
                                   | None => old
                                   end))
      by (unfold seen; rewrite Hid; reflexivity).
    constructor; [| exact IH].
    intros k Hf Hl. destruct (odict_get vid det); [| reflexivity].
    rewrite lookup_insert_ne by congruence. apply backfill_lookup. exact Hf.
  - rewrite (omap_cons_None _ old); [exact IH |].
    unfold seen. destruct (id_key old) eqn:Hid; [| reflexivity].
    exfalso. apply Hno. unfold has_id. rewrite Hid. eauto.
Qed.

Lemma olds_length now L D : length (olds now L D) = length (filter has_id L).
Proof. symmetry. exact (Forall2_length _ _ _ (olds_same now L D)). Qed.

(** Uniqueness of the ids goes through [_reconcile]. *)
Lemma fresh_ids_NoDup now ex (det : odict record) :
  NoDup det.*1 -> (forall kv, kv ∈ det -> id_key kv.2 = Some kv.1) ->
  NoDup (ids (omap (fresh_item now ex) det)) /\
  (forall k, k ∈ ids (omap (fresh_item now ex) det) -> k ∈ det.*1).
Proof.
  induction det as [| [k d] det IH]; intros Hnd Hkeys.
  { split; [constructor | intros k H; inversion H]. }
  apply NoDup_cons in Hnd as [Hk Hnd].
  destruct (IH Hnd (fun kv H => Hkeys kv (list_elem_of_further _ _ _ H))) as [IH1 IH2].
  pose proof (Hkeys (k, d) ltac:(left)) as Hkd. cbn [fst snd] in Hkd.
  destruct (fresh_item now ex (k, d)) as [e |] eqn:Hf;
    [rewrite (omap_cons_Some _ _ _ _ Hf) | rewrite (omap_cons_None _ _ _ Hf)].
  - unfold fresh_item in Hf. cbn [fst snd] in Hf.
    destruct (odict_get k ex); [discriminate |]. injection Hf as <-.
    rewrite ids_cons, new_item_id_key, Hkd, fmap_cons. cbn [fst option_list app]. split.
    + apply NoDup_cons. split; [| exact IH1]. intros Hin. apply Hk, IH2, Hin.
    + intros k' [-> | Hk']%elem_of_cons; [left | right; apply IH2; exact Hk'].
  - split; [exact IH1 |]. intros k' Hk'. right. apply IH2. exact Hk'.
Qed.

Lemma reconcile_ids_NoDup now L D :
  NoDup (ids L) -> NoDup (ids (_reconcile now L D).1).
Proof.
  intros HL. rewrite reconcile_ledger, ids_app, ids_olds.
  apply NoDup_app. split; [| split; [| exact HL]].
  - unfold news. unfold ids at 1. rewrite reverse_Permutation.
    apply fresh_ids_NoDup; [apply by_id_NoDup |].
    intros [k d] Hin. cbn [fst snd]. apply (by_id_get D k d).
    apply odict_elem_get; [apply by_id_NoDup | exact Hin].
  - intros k Hk1 Hk2. apply news_ids in Hk1 as [_ Hk1]. contradiction.
Qed.

Lemma reconcile_entries_ok now L D :
  Forall entry_ok L -> Forall entry_ok (_reconcile now L D).1.
Proof.
  intros HL. rewrite reconcile_ledger. apply Forall_app.
  split; apply Forall_forall; intros e He.
  - apply elem_of_news in He as (vid & d & -> & _). apply new_item_ok.
  - apply elem_of_olds in He as (old & Hold & Ht).
    rewrite Forall_forall in HL. specialize (HL old Hold).
    unfold touch in Ht. destruct (id_key old) as [vid |]; [| discriminate].
    injection Ht as <-. destruct (odict_get vid (by_id D)).
    + apply refreshed_ok. exact HL.
    + apply retired_ok. exact HL.
Qed.

Lemma reconcile_has_id now L D : Forall has_id (_reconcile now L D).1.
Proof.
  rewrite reconcile_ledger. apply Forall_app.
  split; apply Forall_forall; intros e He.
  - apply elem_of_news in He as (vid & d & -> & _ & Hid & _).
    unfold has_id. rewrite new_item_id_key, Hid. eexists. reflexivity.
  - apply elem_of_olds in He as (old & _ & Ht). unfold has_id.
    rewrite (touch_id_key _ _ _ _ Ht). apply (touch_is_Some now (by_id D)).
    eexists. exact Ht.
Qed.

Lemma status_mirrors_detection now L D e :
  e ∈ (_reconcile now L D).1 ->
  exists vid, id_key e = Some vid /\
              (get e "status" = VStr "RESOLVED" <-> vid ∉ ids D).
Proof.
  rewrite reconcile_ledger, elem_of_app. intros [He | He].
  - apply elem_of_news in He as (vid & d & -> & Hd & Hid & _).
    exists vid. split; [rewrite new_item_id_key; exact Hid |].
    assert (Hin : vid ∈ ids D) by (apply elem_of_ids; eauto).
    unfold new_item. rewrite get_insert_ne, get_insert_eq by done.
    split; [discriminate | contradiction].
  - apply elem_of_olds in He as (old & _ & Ht).
    pose proof (touch_id_key _ _ _ _ Ht) as Hid.
    unfold touch in Ht. destruct (id_key old) as [vid |] eqn:Hold; [| discriminate].
    exists vid. split; [exact Hid |]. injection Ht as <-.
    rewrite <- status_of_resolved.
    destruct (odict_get vid (by_id D)) as [d |] eqn:Hd.
    + rewrite refreshed_not_resolved.
      assert (Hin : vid ∈ ids D) by (apply by_id_mem; eauto).
      split; [discriminate | contradiction].
    + rewrite retired_status. apply by_id_None in Hd. split; auto.
Qed.

End LedgerFacts.

Module LedgerProperties.
Import Reconcile ReconcileFacts LedgerFacts Samples.

(** The ledger mirrors the detection: after [_reconcile], an entry has the
    status RESOLVED exactly when its id is not among the detected ids.
    (Every entry of the ledger has an id.) *)
Theorem resolved_iff_not_detected (now : string) (L D : list record) (e : record) :
  e ∈ (_reconcile now L D).1 ->
  exists vid, id_key e = Some vid /\
              (get e "status" = VStr "RESOLVED" <-> vid ∉ ids D).
Proof. apply status_mirrors_detection. Qed.

(** The counters of the summary add up: the returned ledger has the old
    entries that have an id and [new] more; [open_count] and
    [resolved_count] split it; and [changed] is set whenever one of [new],
    [reopened], [resolved] is not zero. *)
Theorem summary_adds_up (now : string) (L D : list record) :
  let r := _reconcile now L D in
  length r.1 = new r.2 + length (filter has_id L) /\
  open_count r.2 + resolved_count r.2 = length r.1 /\
  (changed r.2 = false -> new r.2 = 0 /\ reopened r.2 = 0 /\ resolved r.2 = 0).
Proof.
  cbv zeta. split; [| split].
  - rewrite reconcile_new, reconcile_ledger, length_app, olds_length. reflexivity.
  - unfold _reconcile. cbn [fst snd open_count resolved_count].
    pose proof (length_filter (fun v => is_open v = true)
                  (updated (fold_left (add_new now (by_id L)) (by_id D)
                     (fold_left (visit now (by_id D)) L (Acc [] false 0 0 0))))).
    lia.
  - apply flag_covers_counters.
Qed.

(** What [changed = False] means: the returned ledger has the old entries
    that have an id, in their order, and each is as it was but for its
    [firstSeenIso] and [lastSeenIso], which move without raising the
    flag. *)
Theorem unchanged_up_to_seen_stamps (now : string) (L D : list record) :
  changed (_reconcile now L D).2 = false ->
  Forall2 (fun old e => forall k, k ≠ "firstSeenIso" -> k ≠ "lastSeenIso" ->
                                  e !! k = old !! k)
          (filter has_id L) (_reconcile now L D).1.
Proof.
  intros H. rewrite (reconcile_quiet now L D H). apply seen_same.
Qed.

(** *** Instances *)

Lemma resolved_iff_not_detected_witness :
  exists vid, id_key (retired t1 resolved_entry) = Some vid /\
              (get (retired t1 resolved_entry) "status" = VStr "RESOLVED"
               <-> vid ∉ ids [token_finding]).
Proof.
  apply (resolved_iff_not_detected t1 [open_entry; resolved_entry] [token_finding]).
  apply (list_elem_of_lookup_2 _ 1). reflexivity.
Defined.

Lemma unchanged_up_to_seen_stamps_witness :
  Forall2 (fun old e => forall k, k ≠ "firstSeenIso" -> k ≠ "lastSeenIso" ->
                                  e !! k = old !! k)
          (filter has_id [open_entry; anonymous_entry])
          (_reconcile t1 [open_entry; anonymous_entry] [token_finding]).1.
Proof.
  apply (unchanged_up_to_seen_stamps t1 [open_entry; anonymous_entry] [token_finding]).
  vm_compute. reflexivity.
Defined.

End LedgerProperties.

(** ** The scanner as a service *)

Module ServiceFacts.
Import Reconcile Detect DetectFacts Scan ScanFacts LedgerFacts Service.

Lemma analyze_without_key api_key service doc_text policies existing_open :
  no_key api_key = true ->
  _analyze api_key service doc_text policies existing_open
  = Raise (re_error (Re.bad_character_range "\\" "(")).
Proof. intros H. unfold _analyze. rewrite H. apply heuristic_raises. Qed.

(** What one call of [scan_once] does to the ledger: nothing, or it
    replaces it with what [_reconcile] returns for it. *)
Lemma scan_once_ledger w force r :
  violations (state (scan_once w force r).2) = violations (state r) \/
  exists now det,
    (scan_once w force r).1 = Ok tt /\
    violations (state (scan_once w force r).2)
      = (_reconcile now (violations (state r)) det).1.
Proof.
  destruct (reload_run w r) as (pc & ra & Hre & _ & _ & Hsame & _).
  destruct Hsame as (_ & Hv & _).
  destruct (document w) as [[mtime content] |] eqn:Hdoc.
  - rewrite (scan_once_present w force r ra pc mtime content Hdoc Hre).
    destruct (negb force && negb pc && negb (doc_changed mtime (state ra))).
    + left. exact Hv.
    + destruct (_analyze _ _ _ _ _) as [det | e].
      * right. exists (clock w (ticks ra)), det. rewrite <- Hv. split; reflexivity.
      * left. exact Hv.
  - rewrite (scan_once_missing w force r ra pc Hdoc Hre). left. exact Hv.
Qed.

Lemma ledger_ok_nil : ledger_ok [].
Proof. repeat split; constructor. Qed.

Lemma ledger_ok_reconcile now L D : ledger_ok L -> ledger_ok (_reconcile now L D).1.
Proof.
  intros (_ & Hnd & Hok). split; [apply reconcile_has_id |].
  split; [apply reconcile_ids_NoDup, Hnd | apply reconcile_entries_ok, Hok].
Qed.

Lemma scan_once_ledger_ok w force r :
  ledger_ok (violations (state r)) ->
  ledger_ok (violations (state (scan_once w force r).2)).
Proof.
  intros H. destruct (scan_once_ledger w force r) as [-> | (now & det & _ & ->)];
    [exact H | apply ledger_ok_reconcile, H].
Qed.

(** *** The methods next to [scan_once] *)

Lemma load_policies_results w files r ps :
  (load_policies w files r).1 = Ok ps ->
  Forall2 (fun f p => Policy.id p = replace "_" "-" (stem f) /\
                      Policy.description p = "Loaded from disk: " +:+ stem f +:+ ".md" /\
                      content f = Some (Policy.text p))
          files ps.
Proof.
  revert r ps. induction files as [| f files IH]; intros r ps.
  - cbn. intros [= <-]. constructor.
  - cbn [load_policies]. rewrite bind_run, load_policy_run.
    destruct (content f) as [text |] eqn:Hc; [| discriminate].
    rewrite bind_run.
    specialize (IH (Run (state r) (S (ticks r)) (analyses r))).
    destruct (load_policies w files _) as [[ps' | e] r']; [| discriminate].
    cbn. intros [= <-]. constructor; [| apply IH; reflexivity].
    cbn. repeat split. exact Hc.
Qed.

Lemma load_policies_error w files r e :
  (load_policies w files r).1 = Raise e -> exists msg, e = os_error msg.
Proof.
  revert r. induction files as [| f files IH]; intros r.
  - discriminate.
  - cbn [load_policies]. rewrite bind_run, load_policy_run.
    destruct (content f) as [text |]; [| cbn; intros [= <-]; eauto].
    rewrite bind_run.
    specialize (IH (Run (state r) (S (ticks r)) (analyses r))).
    destruct (load_policies w files _) as [[ps' | e'] r']; [discriminate |].
    cbn in *. intros [= <-]. apply IH. reflexivity.
Qed.

(** The load of the policies, forced or not: it returns having replaced
    the policies by those of the files, or it returns early, or one of the
    files cannot be read and it raises [OSError] with the state as it
    was. *)
Lemma load_from_disk_cases w force r :
  same_but_policies (state r) (state (_load_policies_from_disk w force r).2) /\
  analyses (_load_policies_from_disk w force r).2 = analyses r /\
  ((force = false /\ unchanged w (state r) = true /\
    _load_policies_from_disk w force r = (Ok false, r))
   \/ ((force = true \/ unchanged w (state r) = false) /\ readable w = true /\
       (_load_policies_from_disk w force r).1 = Ok true /\
       Forall (from_disk w) (policies (state (_load_policies_from_disk w force r).2)) /\
       length (policies (state (_load_policies_from_disk w force r).2))
         = length (default [] (policies_dir w)))
   \/ ((force = true \/ unchanged w (state r) = false) /\ readable w = false /\
       (exists msg, (_load_policies_from_disk w force r).1 = Raise (os_error msg)) /\
       state (_load_policies_from_disk w force r).2 = state r)).
Proof.
  unfold _load_policies_from_disk. rewrite bind_run. cbn [read].
  fold (unchanged w (state r)).
  destruct (negb force && unchanged w (state r)) eqn:Hgate.
  - apply andb_prop in Hgate as [Hf Hun]. apply negb_true_iff in Hf.
    cbn. repeat split. left. repeat split; assumption.
  - assert (Hwhy : force = true \/ unchanged w (state r) = false).
    { destruct force; [left; reflexivity | right; exact Hgate]. }
    rewrite bind_run. unfold readable, from_disk.
    destruct (policies_dir w) as [files |] eqn:Hdir.
    + destruct (load_policies_run w (sorted files) r) as (H1 & H2 & H3 & H4).
      pose proof (load_policies_results w (sorted files) r) as Hres.
      pose proof (load_policies_error w (sorted files) r) as Herr.
      destruct (load_policies w (sorted files) r) as [[ps | e] r'] eqn:E;
        cbn [fst snd] in *.
      * rewrite write_then, ret_run. cbn [fst snd state analyses ticks].
        rewrite H1. repeat split; try assumption. right. left.
        specialize (Hres ps eq_refl).
        repeat split; try assumption.
        -- apply H4. eauto.
        -- cbn. apply Forall_forall. intros p Hp.
           apply list_elem_of_lookup in Hp as [i Hi].
           destruct (Forall2_lookup_r _ _ _ _ _ Hres Hi) as (f & Hf & Hid & Hde & Hco).
           exists files, f. repeat split; try assumption.
           apply list_elem_of_lookup_2 in Hf.
           unfold sorted in Hf. rewrite merge_sort_Permutation in Hf. exact Hf.
        -- cbn. rewrite <- (Forall2_length _ _ _ Hres). unfold sorted.
           rewrite merge_sort_Permutation. reflexivity.
      * rewrite H1. repeat split; try assumption. right. right.
        destruct (Herr e eq_refl) as [msg ->].
        repeat split; try assumption; [| eauto].
        destruct (all_readable (sorted files)); [| reflexivity].
        destruct (proj2 H4 eq_refl) as [ps Hps]. discriminate.
    + rewrite ret_run, write_then, ret_run. cbn [fst snd state analyses ticks].
      repeat split. right. left. repeat split; try assumption. constructor.
Qed.

Lemma scan_once_policies w force r pc ra :
  reload w r = (Ok pc, ra) ->
  policies (state (scan_once w force r).2) = policies (state ra).
Proof.
  intros Hre. destruct (document w) as [[mtime content] |] eqn:Hdoc.
  - rewrite (scan_once_present w force r ra pc mtime content Hdoc Hre).
    destruct (negb force && negb pc && negb (doc_changed mtime (state ra)));
      [reflexivity |].
    destruct (_analyze _ _ _ _ _); reflexivity.
  - rewrite (scan_once_missing w force r ra pc Hdoc Hre). reflexivity.
Qed.

Lemma init_sources_run w r :
  Scanner._init_sources w r =
  (Ok tt, Run (Scanner.set_sources
                 [list_to_map [("id", VStr "google-drive");
                               ("name", VStr "Google Drive");
                               ("description", VStr "Local .doc (pretend Drive)");
                               ("path", VStr (GOOGLE_DRIVE_DOC w))]] (state r))
              (ticks r) (analyses r)).
Proof. reflexivity. Qed.

Lemma add_policy_run w seconds name text r :
  Scanner.add_policy w seconds name text r =
  let p := Policy.Make ("uploaded-" +:+ pretty seconds) name "Uploaded via API (mock)"
                       "1.0" (clock w (ticks r)) text in
  (Ok p, Run (Scanner.set_policy_list (p :: policies (state r)) (state r))
             (S (ticks r)) (analyses r)).
Proof. reflexivity. Qed.

Lemma delete_policy_run policy_id r :
  Scanner.delete_policy policy_id r =
  let kept := filter (fun p => Policy.id p <> policy_id) (policies (state r)) in
  (Ok (negb (Nat.eqb (length kept) (length (policies (state r))))),
   Run (Scanner.set_policy_list kept (state r)) (ticks r) (analyses r)).
Proof. reflexivity. Qed.

(** A forced scan of a document that exists, without a key: the analysis
    raises after the modification time of the document is recorded. *)
Lemma forced_scan_without_key w r mtime content :
  document w = Some (mtime, content) -> no_key (api_key w) = true ->
  exists ra,
    same_but_policies (state r) (state ra) /\
    scan_once w true r =
    (Raise (re_error (Re.bad_character_range "\\" "(")),
     Run (set_doc_mtime (Some mtime) (state ra)) (ticks ra) (S (analyses ra))).
Proof.
  intros Hdoc Hkey.
  destruct (reload_run w r) as (pc & ra & Hre & _ & _ & Hsame & _).
  exists ra. split; [exact Hsame |].
  rewrite (scan_once_present w true r ra pc mtime content Hdoc Hre).
  cbn [negb andb]. rewrite analyze_without_key by exact Hkey. reflexivity.
Qed.

Lemma scan_once_without_key w force r :
  no_key (api_key w) = true ->
  violations (state (scan_once w force r).2) = violations (state r).
Proof.
  intros Hkey.
  destruct (reload_run w r) as (pc & ra & Hre & _ & _ & (_ & Hv & _) & _).
  destruct (document w) as [[mtime content] |] eqn:Hdoc.
  - rewrite (scan_once_present w force r ra pc mtime content Hdoc Hre).
    rewrite analyze_without_key by exact Hkey.
    destruct (negb force && negb pc && negb (doc_changed mtime (state ra)));
      exact Hv.
  - rewrite (scan_once_missing w force r ra pc Hdoc Hre). exact Hv.
Qed.

(** *** What one call does to the ledger *)

Lemma init_run w r :
  Scanner.__init__ w r =
  let r0 := Run (Scanner.set_sources
                   [list_to_map [("id", VStr "google-drive");
                                 ("name", VStr "Google Drive");
                                 ("description", VStr "Local .doc (pretend Drive)");
                                 ("path", VStr (GOOGLE_DRIVE_DOC w))]] (state r))
                (ticks r) (analyses r) in
  match _load_policies_from_disk w true r0 with
  | (Ok _, r1) => scan_once w true r1
  | (Raise e, r1) => (Raise e, r1)
  end.
Proof.
  unfold Scanner.__init__. rewrite bind_run, init_sources_run, bind_run. reflexivity.
Qed.

Lemma turn_run str w r :
  Scanner.turn str w r =
  match scan_once w false r with
  | (Ok a, r') => (Ok a, r')
  | (Raise e, r') =>
      (Ok tt, Run (set_last_scan_error (Some (str e)) (state r')) (ticks r') (analyses r'))
  end.
Proof. reflexivity. Qed.

Lemma turn_returns str w r : (Scanner.turn str w r).1 = Ok tt.
Proof.
  rewrite turn_run. destruct (scan_once w false r) as [[[] | e] r']; reflexivity.
Qed.

Lemma upload_policy_state w seconds body r :
  violations (state (App.upload_policy w seconds body r).2) = violations (state r).
Proof.
  unfold App.upload_policy.
  destruct (App.field _ "name"); [reflexivity |].
  destruct (App.field _ "text"); [reflexivity |].
  rewrite add_policy_run. reflexivity.
Qed.

Lemma after_ledger str r c :
  violations (state (after str r c)) = violations (state r) \/
  exists now det,
    violations (state (after str r c)) = (_reconcile now (violations (state r)) det).1.
Proof.
  destruct c as [w | w | w | w seconds body | policy_id]; cbn [after].
  - rewrite init_run. cbv zeta.
    pose proof (load_from_disk_cases w true
                  (Run (Scanner.set_sources
                          [list_to_map [("id", VStr "google-drive");
                                        ("name", VStr "Google Drive");
                                        ("description", VStr "Local .doc (pretend Drive)");
                                        ("path", VStr (GOOGLE_DRIVE_DOC w))]] (state r))
                       (ticks r) (analyses r))) as ((_ & Hv & _) & _).
    destruct (_load_policies_from_disk w true _) as [[b | e] r1]; cbn [fst snd state] in *.
    + destruct (scan_once_ledger w true r1) as [H | (now & det & _ & H)].
      * left. rewrite H. exact Hv.
      * right. exists now, det. rewrite H, Hv. reflexivity.
    + left. exact Hv.
  - rewrite turn_run.
    destruct (scan_once_ledger w false r) as [H | (now & det & _ & H)].
    + left. destruct (scan_once w false r) as [[[] | e] r']; exact H.
    + right. exists now, det. destruct (scan_once w false r) as [[[] | e] r']; exact H.
  - unfold App.trigger_scan.
    destruct (scan_once_ledger w true r) as [H | (now & det & _ & H)].
    + left. destruct (scan_once w true r) as [[[] | e] r']; exact H.
    + right. exists now, det. destruct (scan_once w true r) as [[[] | e] r']; exact H.
  - left. apply upload_policy_state.
  - left. reflexivity.
Qed.

Lemma after_keyless str r c :
  keyless c -> violations (state (after str r c)) = violations (state r).
Proof.
  destruct c as [w | w | w | w seconds body | policy_id]; unfold keyless; cbn;
    intros Hkey.
  - rewrite init_run. cbv zeta.
    pose proof (load_from_disk_cases w true
                  (Run (Scanner.set_sources
                          [list_to_map [("id", VStr "google-drive");
                                        ("name", VStr "Google Drive");
                                        ("description", VStr "Local .doc (pretend Drive)");
                                        ("path", VStr (GOOGLE_DRIVE_DOC w))]] (state r))
                       (ticks r) (analyses r))) as ((_ & Hv & _) & _).
    destruct (_load_policies_from_disk w true _) as [[b | e] r1]; cbn [fst snd state] in *.
    + rewrite (scan_once_without_key w true r1 Hkey). exact Hv.
    + exact Hv.
  - rewrite turn_run. pose proof (scan_once_without_key w false r Hkey) as H.
    destruct (scan_once w false r) as [[[] | e] r']; exact H.
  - unfold App.trigger_scan. pose proof (scan_once_without_key w true r Hkey) as H.
    destruct (scan_once w true r) as [[[] | e] r']; exact H.
  - apply upload_policy_state.
  - reflexivity.
Qed.

(** *** Lists of policies *)

Lemma filter_length_all {A} (P : A -> Prop) `{forall x, Decision (P x)} (l : list A) :
  length (filter P l) = length l <-> Forall P l.
Proof.
  induction l as [| x l IH]; [split; [constructor | reflexivity] |].
  rewrite filter_cons. destruct (decide (P x)) as [Hx | Hx].
  - cbn [length]. rewrite Forall_cons. split.
    + intros [= Hl]. split; [exact Hx | apply IH, Hl].
    + intros [_ Hl]. f_equal. apply IH, Hl.
  - split.
    + intros Hl. pose proof (length_filter P l). cbn [length] in Hl. lia.
    + intros [Hx' _]%Forall_cons. contradiction.
Qed.

Lemma deleted_flag policy_id (ps : list Policy.t) :
  negb (Nat.eqb (length (filter (fun p => Policy.id p <> policy_id) ps)) (length ps))
  = bool_decide (policy_id ∈ (Policy.id <$> ps)).
Proof.
  destruct (decide (policy_id ∈ (Policy.id <$> ps))) as [Hin | Hout].
  - rewrite bool_decide_eq_true_2 by exact Hin. apply negb_true_iff, Nat.eqb_neq.
    rewrite filter_length_all, Forall_forall. intros Hall.
    apply list_elem_of_fmap in Hin as (p & -> & Hp). exact (Hall p Hp eq_refl).
  - rewrite bool_decide_eq_false_2 by exact Hout. apply negb_false_iff, Nat.eqb_eq.
    rewrite filter_length_all, Forall_forall. intros p Hp Heq.
    apply Hout, list_elem_of_fmap. exists p. split; [symmetry; exact Heq | exact Hp].
Qed.

Lemma filter_all {A} (P : A -> Prop) `{forall x, Decision (P x)} (l : list A) :
  Forall P l -> filter P l = l.
Proof.
  induction 1 as [| x l Hx _ IH]; [reflexivity |].
  rewrite filter_cons, decide_True by exact Hx. f_equal. exact IH.
Qed.

End ServiceFacts.

Module ServiceProperties.
Import Reconcile ReconcileFacts Detect DetectFacts Scan ScanFacts LedgerFacts Service ServiceFacts.
Import Samples Scenarios.

(** [_analyze] returns exactly when the semantic detector does: a key is
    configured and the call to the service returns a message (whatever its
    content).  In every other case it falls back on the heuristic detector,
    which raises. *)
Theorem analyze_returns_iff_service_answers (api_key : option string)
    (service : string -> list Policy.t -> list record -> reply)
    (doc_text : string) (policies : list Policy.t) (existing_open : list record) :
  (exists out, _analyze api_key service doc_text policies existing_open = Ok out) <->
  no_key api_key = false /\
  forall e, service doc_text policies existing_open <> Raises e.
Proof.
  unfold _analyze. destruct (no_key api_key).
  - rewrite heuristic_raises. split; [intros [out H] | intros [H _]]; discriminate.
  - unfold _openai_violations.
    destruct (service doc_text policies existing_open) as [e | | parsed].
    + rewrite heuristic_raises. split; [intros [out H]; discriminate |].
      intros [_ H]. destruct (H e eq_refl).
    + split; [| eauto]. intros _. split; [reflexivity | discriminate].
    + split; [| eauto]. intros _. split; [reflexivity | discriminate].
Qed.

(** [POST /api/scan] without a key, on a document that exists: the view
    raises [re.error] (the answer is a 500).  The ledger and
    [last_scan_iso] are as they were and [last_scan_error] is not set, but
    the modification time of the document is recorded. *)
Theorem trigger_scan_without_key (w : world) (r : run) (mtime : Z) (content : string) :
  document w = Some (mtime, content) -> no_key (api_key w) = true ->
  exists r',
    App.trigger_scan w r
      = (inl (App.scanner_error (re_error (Re.bad_character_range "\\" "("))), r') /\
    violations (state r') = violations (state r) /\
    last_scan_iso (state r') = last_scan_iso (state r) /\
    last_scan_error (state r') = last_scan_error (state r) /\
    _doc_mtime (state r') = Some mtime.
Proof.
  intros Hdoc Hkey.
  destruct (forced_scan_without_key w r mtime content Hdoc Hkey)
    as (ra & (_ & Hv & Hiso & Herr & _) & Hscan).
  eexists. unfold App.trigger_scan. rewrite Hscan. split; [reflexivity |].
  cbn. repeat split; assumption.
Qed.

(** While [OPENAI_API_KEY] is unset or empty, no sequence of calls changes
    the ledger: a service started on [ScanState()] serves an empty list of
    violations whatever the document says. *)
Theorem ledger_is_frozen_without_key (str : exn -> string) (cs : list call) (r : run) :
  Forall keyless cs ->
  violations (state (replay str cs r)) = violations (state r).
Proof.
  unfold replay. intros H. revert r.
  induction H as [| c cs Hc _ IH]; intros r; [reflexivity |].
  cbn [fold_left]. rewrite IH. apply after_keyless, Hc.
Qed.

(** The invariants of the data model hold in every state that the service
    reaches when its calls run one after the other: every entry of the
    ledger has an id, no two have the same, and [resolvedAtIso] is set
    exactly on the entries whose status is RESOLVED. *)
Theorem service_keeps_ledger_ok (str : exn -> string) (cs : list call) (r : run) :
  ledger_ok (violations (state r)) ->
  ledger_ok (violations (state (replay str cs r))).
Proof.
  unfold replay. revert r. induction cs as [| c cs IH]; intros r H; [exact H |].
  cbn [fold_left]. apply IH.
  destruct (after_ledger str r c) as [-> | (now & det & ->)];
    [exact H | apply ledger_ok_reconcile, H].
Qed.

(** A pass of the background thread whose scan raises is not tried again
    while the files stay as they are: the modification time of the
    document is recorded before the analysis runs, so the next pass
    returns at the gate when it finds the same modification time of the
    document, the same newest modification time of the policy files (of
    which there is at least one), and the policy files readable or not as
    the failed pass found them.  The error stays in [last_scan_error] and
    the ledger is as it was before the failed pass.  (The last condition
    is needed: a policy file that could not be read by the failed pass and
    can be read by the next one makes that pass load the policies and
    analyse again.) *)
Theorem failed_pass_is_not_retried (str : exn -> string) (w w' : world) (r r1 : run)
    (mtime : Z) (content content' : string) (e : exn) :
  document w = Some (mtime, content) ->
  document w' = Some (mtime, content') ->
  is_Some (_policies_max_mtime w) ->
  _policies_max_mtime w' = _policies_max_mtime w ->
  readable w' = readable w ->
  scan_once w false r = (Raise e, r1) ->
  exists r2 r3,
    Scanner.turn str w r = (Ok tt, r2) /\
    last_scan_error (state r2) = Some (str e) /\
    violations (state r2) = violations (state r) /\
    Scanner.turn str w' r2 = (Ok tt, r3) /\
    state r3 = state r2 /\ analyses r3 = analyses r2.
Proof.
  intros Hdoc Hdoc' Hpol Hmax Hread Hfirst.
  destruct (reload_run w r) as (pc & ra & Hre & _ & _ & (_ & Hv & _) & _ & Hcalm).
  specialize (Hcalm Hpol).
  (* what the failed scan leaves behind *)
  assert (H1 : state r1 = set_doc_mtime (Some mtime) (state ra)).
  { rewrite (scan_once_present w false r ra pc mtime content Hdoc Hre) in Hfirst.
    destruct (negb false && negb pc && negb (doc_changed mtime (state ra)));
      [discriminate |].
    destruct (_analyze _ _ _ _ _) as [det | e']; [discriminate |].
    injection Hfirst as _ <-. reflexivity. }
  set (r2 := Run (set_last_scan_error (Some (str e)) (state r1)) (ticks r1) (analyses r1)).
  assert (Hcalm2 : calm w' (state r2)).
  { apply (calm_same_signals w w' _ Hmax Hread).
    unfold calm, unchanged in *. subst r2. cbn [state set_last_scan_error _policies_mtime].
    rewrite H1. exact Hcalm. }
  destruct (reload_calm w' r2 Hcalm2) as (rb & Hre2 & Hst & Han).
  exists r2, rb. split; [rewrite turn_run, Hfirst; reflexivity |].
  split; [reflexivity |].
  split; [subst r2; cbn; rewrite H1; exact Hv |].
  split; [| split; assumption].
  rewrite turn_run, (scan_once_present w' false r2 rb false mtime content' Hdoc' Hre2).
  rewrite Hst. subst r2. cbn [state]. rewrite H1.
  unfold doc_changed. cbn. rewrite Z.ltb_irrefl. reflexivity.
Qed.

(** The thread of [start_background] never ends with an exception: every
    pass returns, whatever the scan raises, so the thread lives until the
    stop event is set. *)
Theorem background_loop_never_raises (str : exn -> string) (ws : list world) (r : run) :
  (Scanner.loop str ws r).1 = Ok tt.
Proof.
  revert r. induction ws as [| w ws IH]; intros r; [reflexivity |].
  cbn [Scanner.loop]. rewrite bind_run.
  pose proof (turn_returns str w r) as H.
  destruct (Scanner.turn str w r) as [[[] | e] r']; [apply IH | discriminate].
Qed.

(** A forced scan whose analysis returns commits what [_reconcile] makes
    of it.  The analysis is the one the scan runs: on the stripped text of
    the document, the policies that the reload at the head of the scan
    leaves in the state, and the open entries of the ledger.  When it
    returns the list [det], the call returns, [last_scan_error] is cleared,
    the time of the scan and the modification time of the document are
    recorded, and in the ledger an entry has the status RESOLVED exactly
    when its id is not among those of [det]. *)
Theorem forced_scan_mirrors_detection (w : world) (r : run) (mtime : Z)
    (content : string) (det : list record) :
  document w = Some (mtime, content) ->
  _analyze (api_key w) (service w (analyses r)) (Text.strip content)
           (policies (state (reload w r).2))
           (filter (fun v => is_open v = true) (violations (state r)))
  = Ok det ->
  exists r',
    scan_once w true r = (Ok tt, r') /\
    last_scan_error (state r') = None /\
    last_scan_iso (state r') = Some (clock w (Nat.pred (ticks r'))) /\
    _doc_mtime (state r') = Some mtime /\
    analyses r' = S (analyses r) /\
    forall e, e ∈ violations (state r') ->
              exists vid, id_key e = Some vid /\
                          (get e "status" = VStr "RESOLVED" <-> vid ∉ ids det).
Proof.
  intros Hdoc Hdet.
  destruct (reload_run w r) as (pc & ra & Hre & Han & _ & Hsame & _).
  destruct Hsame as (_ & Hv & _).
  rewrite Hre in Hdet. cbn [snd] in Hdet.
  eexists. rewrite (scan_once_present w true r ra pc mtime content Hdoc Hre).
  cbn [negb andb]. rewrite Han, Hv, Hdet. split; [reflexivity |].
  cbn [state ticks analyses set_last_scan_error set_last_scan_iso set_violations
       set_doc_mtime last_scan_error last_scan_iso _doc_mtime violations Nat.pred].
  split; [reflexivity |]. split; [reflexivity |]. split; [reflexivity |].
  split; [f_equal; exact Han |].
  intros e He. apply (status_mirrors_detection _ _ _ _ He).
Qed.

(** Without a key, on a document that exists, [create_app] raises: the
    constructor of [Scanner] runs a forced scan, and nothing catches what
    the analysis raises (or, before that, what an unreadable policy file
    raises).  The service does not start. *)
Theorem create_app_fails_without_key (w : world) (mtime : Z) (content : string) :
  document w = Some (mtime, content) -> no_key (api_key w) = true ->
  exists e r', App.create_app w = (Raise e, r') /\ violations (state r') = [].
Proof.
  intros Hdoc Hkey. unfold App.create_app. rewrite init_run. cbv zeta.
  pose proof (load_from_disk_cases w true
                (Run (Scanner.set_sources
                        [list_to_map [("id", VStr "google-drive");
                                      ("name", VStr "Google Drive");
                                      ("description", VStr "Local .doc (pretend Drive)");
                                      ("path", VStr (GOOGLE_DRIVE_DOC w))]] (state (Run initial 0 0)))
                     (ticks (Run initial 0 0)) (analyses (Run initial 0 0))))
    as ((_ & Hv & _) & _).
  destruct (_load_policies_from_disk w true _) as [[b | e] r1]; cbn [fst snd state] in *.
  - destruct (forced_scan_without_key w r1 mtime content Hdoc Hkey)
      as (ra & (_ & Hv' & _) & ->).
    eexists. eexists. split; [reflexivity |]. cbn. rewrite Hv'. exact Hv.
  - eexists. eexists. split; [reflexivity | exact Hv].
Qed.

(** [delete_policy] removes every policy that has the id, keeps the
    others in their order, and returns whether there was one to remove. *)
Theorem delete_policy_removes_every_match (policy_id : string) (r : run) :
  exists r',
    Scanner.delete_policy policy_id r
      = (Ok (bool_decide (policy_id ∈ (Policy.id <$> policies (state r)))), r') /\
    policies (state r')
      = filter (fun p => Policy.id p <> policy_id) (policies (state r)) /\
    (policy_id ∉ (Policy.id <$> policies (state r'))) /\
    violations (state r') = violations (state r).
Proof.
  eexists. rewrite delete_policy_run. cbv zeta. rewrite deleted_flag.
  split; [reflexivity |]. cbn. split; [reflexivity |]. split; [| reflexivity].
  intros (p & Hid & Hp)%list_elem_of_fmap.
  apply list_elem_of_filter in Hp as [Hne _]. apply Hne. symmetry. exact Hid.
Qed.

(** An upload followed by the deletion of the id it was given leaves the
    policies as they were, provided no policy had that id before. *)
Theorem upload_then_delete_restores (w : world) (seconds : Z) (name text : string)
    (r : run) :
  "uploaded-" +:+ pretty seconds ∉ (Policy.id <$> policies (state r)) ->
  exists p r1 r2,
    Scanner.add_policy w seconds name text r = (Ok p, r1) /\
    Scanner.delete_policy (Policy.id p) r1 = (Ok true, r2) /\
    policies (state r2) = policies (state r).
Proof.
  intros Hfresh. eexists. eexists. eexists.
  rewrite add_policy_run. cbv zeta. split; [reflexivity |].
  rewrite delete_policy_run. cbv zeta. rewrite deleted_flag.
  cbn [state Scanner.set_policy_list policies Policy.id].
  rewrite bool_decide_eq_true_2 by (rewrite fmap_cons; left).
  split; [reflexivity |]. cbn [state Scanner.set_policy_list policies].
  rewrite filter_cons, decide_False by (intros H; apply H; reflexivity).
  apply filter_all, Forall_forall. intros p Hp Hid.
  apply Hfresh, list_elem_of_fmap. exists p. split; [symmetry; exact Hid | exact Hp].
Qed.

(** Two uploads within the same second are given the same id, and one
    deletion removes both. *)
Theorem same_second_uploads_share_id (w w' : world) (seconds : Z)
    (name text name' text' : string) (r : run) :
  exists p r1 p' r2 r3,
    Scanner.add_policy w seconds name text r = (Ok p, r1) /\
    Scanner.add_policy w' seconds name' text' r1 = (Ok p', r2) /\
    Policy.id p' = Policy.id p /\
    policies (state r2) = p' :: p :: policies (state r) /\
    Scanner.delete_policy (Policy.id p) r2 = (Ok true, r3) /\
    policies (state r3)
      = filter (fun q => Policy.id q <> Policy.id p) (policies (state r)).
Proof.
  do 5 eexists. rewrite !add_policy_run. cbv zeta.
  split; [reflexivity |]. split; [reflexivity |]. split; [reflexivity |].
  split; [reflexivity |].
  rewrite delete_policy_run. cbv zeta. rewrite deleted_flag.
  cbn [state Scanner.set_policy_list policies Policy.id].
  rewrite bool_decide_eq_true_2 by (rewrite fmap_cons; left).
  split; [reflexivity |]. cbn [state Scanner.set_policy_list policies].
  rewrite !filter_cons. cbn [Policy.id].
  rewrite !decide_False by (intros H; apply H; reflexivity). reflexivity.
Qed.

(** A reload from disk forgets the uploaded policies: when [scan_once]
    finds the policy files changed (or finds none, or has no time stamp
    for them) and can read them, the policies it leaves are those of the
    files, one for each. *)
Theorem reload_drops_uploads (w : world) (force : bool) (r : run) :
  unchanged w (state r) = false -> readable w = true ->
  Forall (from_disk w) (policies (state (scan_once w force r).2)) /\
  length (policies (state (scan_once w force r).2))
    = length (default [] (policies_dir w)).
Proof.
  intros Hun Hread.
  destruct (load_from_disk_cases w false r) as (_ & _ & Hcases).
  assert (Hre : exists ra, reload w r = (Ok true, ra) /\
                           ra = (_load_policies_from_disk w false r).2).
  { unfold reload, try_except.
    destruct Hcases as [(_ & H & _) | [(_ & _ & H & _) | (_ & H & _)]];
      [congruence | | congruence].
    destruct (_load_policies_from_disk w false r) as [[b | e] ra];
      cbn in H; [| discriminate].
    injection H as ->. eauto. }
  destruct Hre as (ra & Hre & ->).
  rewrite (scan_once_policies w force r true _ Hre).
  destruct Hcases as [(_ & H & _) | [(_ & _ & _ & H) | (_ & H & _)]];
    [congruence | exact H | congruence].
Qed.

(** [GET /api/violations] answers with the entries of the ledger that
    match the parameters, in the order of the ledger, and changes nothing.
    A parameter that is absent or empty does not narrow the answer. *)
Theorem violations_view_filters (source_id policy_id : option string) (r : run) :
  exists items,
    App.violations source_id policy_id r = (inr (items, 200), r) /\
    sublist items (violations (state r)) /\
    forall v,
      v ∈ items <->
      v ∈ violations (state r) /\
      (forall x, source_id = Some x -> x <> "" ->
                 py_eq (get v "sourceId") (VStr x) = true) /\
      (forall x, policy_id = Some x -> x <> "" ->
                 py_eq (get v "policyId") (VStr x) = true).
Proof.
  assert (Hnarrow : forall key param items,
             sublist (App.narrow key param items) items /\
             forall v, v ∈ App.narrow key param items <->
                       v ∈ items /\
                       (forall x, param = Some x -> x <> "" ->
                                  py_eq (get v key) (VStr x) = true)).
  { intros key [x |] items; unfold App.narrow.
    - case_bool_decide as Hx.
      + split; [reflexivity |]. intros v. split; [| tauto].
        intros Hv. split; [exact Hv |]. intros y [= <-] Hy. contradiction.
      + split; [apply sublist_filter |]. intros v. rewrite list_elem_of_filter.
        split.
        * intros [Hm Hv]. split; [exact Hv |]. intros y [= <-] _. exact Hm.
        * intros [Hv Hm]. split; [apply (Hm x eq_refl Hx) | exact Hv].
    - split; [reflexivity |]. intros v. split; [| tauto].
      intros Hv. split; [exact Hv |]. intros y [=]. }
  eexists. split; [reflexivity |]. split.
  - etransitivity; apply Hnarrow.
  - intros v. rewrite (proj2 (Hnarrow _ _ _)), (proj2 (Hnarrow _ _ _)). tauto.
Qed.

(** [POST /api/policies]: the view raises [AttributeError] exactly when the
    body is JSON that is neither falsy nor an object, and then changes
    nothing; in every other case it answers 201 with a new policy, put in
    front of the others, whose name is not empty. *)
Theorem upload_policy_outcome (w : world) (seconds : Z) (body : option value) (r : run) :
  match App.upload_policy w seconds body r with
  | (inl e, r') =>
      r' = r /\
      exists v, body = Some v /\ truthy v = true /\ (forall kvs, v <> VDict kvs) /\
                e = App.attribute_error
                      ("'" +:+ App.type_name v +:+ "' object has no attribute 'get'")
  | (inr (p, code), r') =>
      code = 201 /\ Policy.name p <> "" /\
      Policy.id p = "uploaded-" +:+ pretty seconds /\
      policies (state r') = p :: policies (state r) /\
      (forall v, body = Some v -> truthy v = true -> exists kvs, v = VDict kvs)
  end.
Proof.
  unfold App.upload_policy.
  assert (Hdata : forall data,
             (exists kvs, data = VDict kvs) \/
             ((forall kvs, data <> VDict kvs) /\
              forall key, App.field data key
                          = inl (App.attribute_error
                                   ("'" +:+ App.type_name data
                                    +:+ "' object has no attribute 'get'")))).
  { intros [| b | n | x text | s | xs | kvs];
      try (right; split; [discriminate | reflexivity]).
    left. eauto. }
  remember (py_or (default VNone body) (VDict [])) as data eqn:Hd.
  destruct (Hdata data) as [[kvs ->] | [Hno Hf]].
  - cbn [App.field]. rewrite add_policy_run. cbv zeta.
    split; [reflexivity |]. split; [| split; [reflexivity | split; [reflexivity |]]].
    + cbn [Policy.name]. case_bool_decide; [discriminate | assumption].
    + intros v -> Hv. unfold py_or in Hd. simpl in Hd. rewrite Hv in Hd. eauto.
  - rewrite Hf. split; [reflexivity |].
    unfold py_or in Hd. destruct (truthy (default VNone body)) eqn:Htr.
    + destruct body as [v |]; [| discriminate]. simpl in *. subst data.
      exists v. repeat split; assumption.
    + destruct (Hno [] Hd).
Qed.

(** *** Instances *)

Lemma trigger_scan_without_key_witness :
  exists r',
    App.trigger_scan world_without_key fresh_run
      = (inl (App.scanner_error (re_error (Re.bad_character_range "\\" "("))), r') /\
    violations (state r') = violations (state fresh_run) /\
    last_scan_iso (state r') = last_scan_iso (state fresh_run) /\
    last_scan_error (state r') = last_scan_error (state fresh_run) /\
    _doc_mtime (state r') = Some 1714557600%Z.
Proof.
  apply (trigger_scan_without_key world_without_key fresh_run 1714557600
           "Users cannot delete their data.").
  - reflexivity.
  - reflexivity.
Defined.

Lemma ledger_is_frozen_without_key_witness :
  violations (state (replay say
                       [Pass world_without_key;
                        UploadPolicy world_without_key 1714557700 (Some sample_upload);
                        TriggerScan world_without_key_later;
                        DeletePolicy "uploaded-1714557700"]
                       fresh_run))
  = violations (state fresh_run).
Proof.
  apply (ledger_is_frozen_without_key say).
  repeat constructor.
Defined.

Lemma service_keeps_ledger_ok_witness :
  ledger_ok (violations (state (replay say
                                  [Construct world_with_alert;
                                   UploadPolicy world_with_alert 1714557700
                                                (Some sample_upload);
                                   Pass world_with_policies;
                                   TriggerScan world_with_alert]
                                  fresh_run))).
Proof.
  apply (service_keeps_ledger_ok say). repeat split; constructor.
Defined.

Lemma failed_pass_is_not_retried_witness :
  exists r2 r3,
    Scanner.turn say world_without_key fresh_run = (Ok tt, r2) /\
    last_scan_error (state r2)
      = Some (say (re_error (Re.bad_character_range "\\" "("))) /\
    violations (state r2) = violations (state fresh_run) /\
    Scanner.turn say world_without_key_later r2 = (Ok tt, r3) /\
    state r3 = state r2 /\ analyses r3 = analyses r2.
Proof.
  apply (failed_pass_is_not_retried say world_without_key world_without_key_later
           fresh_run (scan_once world_without_key false fresh_run).2
           1714557600 "Users cannot delete their data."
           "Users cannot delete their data.").
  - reflexivity.
  - reflexivity.
  - vm_compute. eexists. reflexivity.
  - vm_compute. reflexivity.
  - vm_compute. reflexivity.
  - apply injective_projections; [vm_compute; reflexivity | reflexivity].
Defined.

Lemma forced_scan_mirrors_detection_witness :
  exists r',
    scan_once world_with_policy_bound_service true fresh_run = (Ok tt, r') /\
    last_scan_error (state r') = None /\
    last_scan_iso (state r') = Some (clock world_with_policy_bound_service (Nat.pred (ticks r'))) /\
    _doc_mtime (state r') = Some 1714557600%Z /\
    analyses r' = S (analyses fresh_run) /\
    forall e, e ∈ violations (state r') ->
              exists vid, id_key e = Some vid /\
                          (get e "status" = VStr "RESOLVED"
                           <-> vid ∉ ids [list_to_map
                                            [("id", VStr "b-003");
                                             ("title", VStr "Secret/token-like string found");
                                             ("sourceId", VStr "google-drive");
                                             ("policyId", VStr "secrets-handling");
                                             ("severity", VStr "high")]]).
Proof.
  apply (forced_scan_mirrors_detection world_with_policy_bound_service fresh_run 1714557600
           "Token: sk_live_abcdef1234567890").
  - reflexivity.
  - vm_compute. reflexivity.
Defined.

Lemma create_app_fails_without_key_witness :
  exists e r', App.create_app world_without_key = (Raise e, r') /\
               violations (state r') = [].
Proof.
  apply (create_app_fails_without_key world_without_key 1714557600
           "Users cannot delete their data.").
  - reflexivity.
  - reflexivity.
Defined.

Lemma upload_then_delete_restores_witness :
  exists p r1 r2,
    Scanner.add_policy world_with_policies 1714557700 "Retention rules"
                       "Keep nothing forever."
                       (scan_once world_with_policies true fresh_run).2 = (Ok p, r1) /\
    Scanner.delete_policy (Policy.id p) r1 = (Ok true, r2) /\
    policies (state r2) = policies (state (scan_once world_with_policies true fresh_run).2).
Proof.
  apply (upload_then_delete_restores world_with_policies 1714557700 "Retention rules"
           "Keep nothing forever." (scan_once world_with_policies true fresh_run).2).
  vm_compute. intros H.
  repeat (apply elem_of_cons in H as [H | H]; [discriminate |]).
  inversion H.
Defined.

Lemma reload_drops_uploads_witness :
  Forall (from_disk world_without_directory)
    (policies
       (state (scan_once world_without_directory false
                 (Scanner.add_policy world_without_directory 1714557700
                    "Retention rules" "Keep nothing forever." fresh_run).2).2)) /\
  length
    (policies
       (state (scan_once world_without_directory false
                 (Scanner.add_policy world_without_directory 1714557700
                    "Retention rules" "Keep nothing forever." fresh_run).2).2))
  = length (default [] (policies_dir world_without_directory)).
Proof.
  apply (reload_drops_uploads world_without_directory false
           (Scanner.add_policy world_without_directory 1714557700
              "Retention rules" "Keep nothing forever." fresh_run).2).
  - reflexivity.
  - reflexivity.
Defined.

End ServiceProperties.

(** ** The flags of the prompt *)

Module PromptFacts.
Import Detect Prompt.

Lemma search_from_later ic r a s :
  Re.search_from ic r s <> None -> Re.search_from ic r (a ++ s) <> None.
Proof.
  intros H. induction a as [| x a IH]; [exact H |].
  cbn [app Re.search_from].
  destruct (Re.m ic r (x :: a ++ s) Some); [discriminate | exact IH].
Qed.

Lemma search_from_here ic r s :
  Re.m ic r s Some <> None -> Re.search_from ic r s <> None.
Proof.
  intros H. destruct s; cbn [Re.search_from]; destruct (Re.m ic r _ Some);
    try discriminate; contradiction.
Qed.

(** A pattern that compiles finds a match in every text in which it
    matches somewhere. *)
Lemma re_search_finds pattern ic r doc_text a s :
  Re.compile pattern = inr r ->
  Text.codepoints doc_text = a ++ s ->
  Re.m ic r s Some <> None ->
  exists found, re_search pattern ic doc_text = Ok (Some found).
Proof.
  intros Hc Hdoc Hm. unfold re_search, Re.search. rewrite Hc, Hdoc.
  pose proof (search_from_later ic r a s (search_from_here ic r s Hm)) as H.
  destruct (Re.search_from ic r (a ++ s)) as [x |]; [| contradiction].
  eexists. reflexivity.
Qed.

Lemma re_search_returns pattern ic r doc_text :
  Re.compile pattern = inr r -> exists m, re_search pattern ic doc_text = Ok m.
Proof. intros Hc. unfold re_search, Re.search. rewrite Hc. eauto. Qed.

(** *** The characters of the phrases under [re.I] *)







(** *** Steps of the matcher under [re.I], towards a match *)

















(** *** The token pattern, step by step *)

Lemma m_seq_lit c r s k :
  Re.m false (Re.Seq (Re.Lit c) r) (c :: s) k = Re.m false r s k.
Proof.
  cbn [Re.m Re.one]. unfold Re.range_matches, Text.between.
  rewrite N.leb_refl. reflexivity.
Qed.

Lemma rep_takes p f lo hi greedy x s k :
  p x = true ->
  Re.rep (Re.one p) (S f) (S lo) hi greedy (x :: s) k
  = Re.rep (Re.one p) f lo (Re.pred_bound hi) greedy s k.
Proof. intros H. cbn [Re.rep Re.one]. rewrite H. reflexivity. Qed.

Lemma rep_greedy_stops body f s k :
  k s <> None -> Re.rep body (S f) 0 None true s k <> None.
Proof. intros H. cbn [Re.rep]. destruct (body s _); [discriminate | exact H]. Qed.

Lemma token_char_in_set x :
  token_char x = true ->
  xorb false (existsb (Re.item_matches false x)
                [Re.IRange 65 90; Re.IRange 97 122; Re.IRange 48 57; Re.ILit 95;
                 Re.ILit 45]%N) = true.
Proof.
  unfold token_char, Re.is_alnum, Text.is_upper, Text.is_lower.
  cbn [xorb existsb Re.item_matches Re.range_matches].
  intros H. rewrite orb_false_r.
  assert (Heq : forall c, Text.between c c x = (x =? c)%N).
  { intros c. unfold Text.between. destruct (N.eqb_spec x c) as [-> | Hne].
    - rewrite N.leb_refl. reflexivity.
    - apply andb_false_iff.
      destruct (N.leb_spec c x); [right; apply N.leb_gt; lia | left; reflexivity]. }
  rewrite !Heq.
  repeat (apply orb_true_iff in H as [H | H]); rewrite H; rewrite ?orb_true_r; reflexivity.
Qed.

Lemma live_token_matches t b r :
  length t = 10 -> Forall (fun x => token_char x = true) t ->
  Re.compile TOKEN_REGEX = inr r ->
  Re.m false r (Text.codepoints "sk_live_" ++ t ++ b) Some <> None.
Proof.
  intros Hlen Ht H. vm_compute in H. injection H as <-.
  do 10 (destruct t as [| ? t]; [discriminate |]).
  destruct t; [| discriminate]. clear Hlen.
  repeat match goal with
         | H : Forall _ (_ :: _) |- _ => apply Forall_cons in H as [? H]
         end.
  change (Text.codepoints "sk_live_") with [115; 107; 95; 108; 105; 118; 101; 95]%N.
  cbn [app]. rewrite !m_seq_lit.
  cbn [Re.m length Nat.add].
  rewrite !rep_takes by (apply token_char_in_set; assumption).
  apply rep_greedy_stops. discriminate.
Qed.

End PromptFacts.

Module PromptProperties.
Import Detect Prompt PromptFacts.


(** The server-side token test is positive for every document that has
    [sk_live_] followed by ten characters of [[A-Za-z0-9_-]] (or more). *)
Theorem token_flag_catches_live_tokens (doc_text : string) (a t b : list N) :
  length t = 10 -> Forall (fun x => token_char x = true) t ->
  Text.codepoints doc_text = a ++ Text.codepoints "sk_live_" ++ t ++ b ->
  exists tr, forced_triggers doc_text = Ok tr /\ doc_has_token tr = true.
Proof.
  intros Hlen Ht Hdoc. unfold forced_triggers.
  destruct (Re.compile RETENTION_REGEX) as [e | r1] eqn:E1;
    [vm_compute in E1; discriminate |].
  destruct (Re.compile TOKEN_REGEX) as [e | r2] eqn:E2;
    [vm_compute in E2; discriminate |].
  destruct (Re.compile EMAIL_REGEX) as [e | r3] eqn:E3;
    [vm_compute in E3; discriminate |].
  destruct (re_search_returns RETENTION_REGEX true r1 doc_text E1) as [m1 ->].
  destruct (re_search_finds TOKEN_REGEX false r2 doc_text a _ E2 Hdoc
              (live_token_matches t b r2 Hlen Ht E2)) as [x ->].
  destruct (re_search_returns EMAIL_REGEX true r3 doc_text E3) as [m3 ->].
  eexists. split; reflexivity.
Qed.

(** *** Instances *)


Lemma token_flag_catches_live_tokens_witness :
  exists tr, forced_triggers "Token: sk_live_abcdef1234567890" = Ok tr /\
             doc_has_token tr = true.
Proof.
  apply (token_flag_catches_live_tokens "Token: sk_live_abcdef1234567890"
           (Text.codepoints "Token: ") (Text.codepoints "abcdef1234")
           (Text.codepoints "567890")).
  - reflexivity.
  - vm_compute. repeat constructor.
  - vm_compute. reflexivity.
Defined.

End PromptProperties.

(** ** The lock of the scanner *)

Module LockFacts.
Import Cycle CycleFacts.

(** Only the background thread records a failure. *)
Lemma api_never_records c n :
  reachable c -> at_ (Api n) c <> Failed /\ at_ (Api n) c <> Recording.
Proof.
  induction 1 as [| c c' _ [IH1 IH2] Hstep]; [split; cbn; discriminate |].
  inversion Hstep as [t ? Hat Hl | t ? Hat | t ? Hat | t ? Hat | m ? Hat | ? Hat
                      | t ? Hat | t ? Hat Hl | t ? Hat | ? Hat Hl | ? Hat];
    subst;
    match goal with
    | |- at_ _ (move ?t0 _ _ _) <> _ /\ _ =>
        destruct (decide (Api n = t0)) as [Heq | Hne];
        [try discriminate Heq; rewrite <- Heq, at_move_eq; split; discriminate
        | rewrite at_move_ne by exact Hne; split; assumption]
    end.
Qed.

End LockFacts.

Module LockProperties.
Import Cycle CycleFacts LockFacts.

(** The scanner cannot deadlock on its lock: in every configuration that
    the loop and any number of forced scans reach, one of the threads can
    take a step.  (A thread inside a [with self._lock] block never waits,
    and outside the blocks no thread holds the lock.) *)
Theorem no_deadlock (c : config) : reachable c -> exists c', step c c'.
Proof.
  intros Hr. pose proof (lock_inv_reachable c Hr) as Hinv.
  destruct (lock c) as [t |] eqn:Hl.
  - pose proof (proj2 (Hinv t) Hl) as Hlocked.
    destruct (at_ t c) eqn:Hat; try discriminate.
    + eexists. apply (skip t). exact Hat.
    + eexists. apply (committed t). exact Hat.
    + destruct t as [| n].
      * eexists. apply recorded. exact Hat.
      * destruct (api_never_records c n Hr) as [_ Hrec]. contradiction.
  - destruct (at_ Background c) eqn:Hb.
    + eexists. apply (enter Background); assumption.
    + eexists. apply (skip Background). exact Hb.
    + eexists. apply (detected Background). exact Hb.
    + eexists. apply (reconciled Background). exact Hb.
    + eexists. apply (commit Background); assumption.
    + eexists. apply (committed Background). exact Hb.
    + eexists. apply record; assumption.
    + eexists. apply recorded. exact Hb.
Qed.

Lemma no_deadlock_witness :
  exists c', step (move (Api 0) Gate (Some (Api 0)) (to_reconcile Background start)) c'.
Proof.
  apply (no_deadlock (move (Api 0) Gate (Some (Api 0)) (to_reconcile Background start))).
  apply (reach_step (to_reconcile Background start)).
  - apply (reach_reconcile Background start);
      [apply reach_start | reflexivity | reflexivity].
  - apply (enter (Api 0)); reflexivity.
Defined.

End LockProperties.

(** ** The time stamps of the policy files *)

Module PolicyFileFacts.
Import Scan ScanFacts.

Lemma fold_max_ge (ts : list Z) (t : Z) :
  (t <= fold_left Z.max ts t)%Z /\ Forall (fun x => (x <= fold_left Z.max ts t)%Z) ts /\
  (fold_left Z.max ts t = t \/ fold_left Z.max ts t ∈ ts).
Proof.
  revert t. induction ts as [| x ts IH]; intros t.
  - cbn. repeat split; [lia | constructor | left; reflexivity].
  - cbn [fold_left]. destruct (IH (Z.max t x)) as (H1 & H2 & H3).
    repeat split.
    + lia.
    + constructor; [lia | exact H2].
    + destruct H3 as [H3 | H3]; [| right; right; exact H3].
      rewrite H3. destruct (Z.max_spec t x) as [[_ ->] | [_ ->]];
        [right; left | left; reflexivity].
Qed.

Lemma max_mtime_spec w m :
  _policies_max_mtime w = Some m <->
  exists files, policies_dir w = Some files /\
                m ∈ (mtime <$> files) /\ Forall (fun f => (mtime f <= m)%Z) files.
Proof.
  unfold _policies_max_mtime. destruct (policies_dir w) as [files |].
  - destruct files as [| f files].
    + cbn. split; [discriminate |]. intros (fs & [= <-] & H & _). inversion H.
    + rewrite fmap_cons. destruct (fold_max_ge (mtime <$> files) (mtime f)) as (H1 & H2 & H3).
      split.
      * intros [= <-]. exists (f :: files). split; [reflexivity |]. split.
        -- rewrite fmap_cons. destruct H3 as [-> | H3]; [left | right; exact H3].
        -- constructor; [exact H1 |]. rewrite Forall_fmap in H2. exact H2.
      * intros (fs & [= <-] & Hin & Hall). f_equal.
        apply Forall_cons in Hall as [Hf Hall].
        assert (Hle : (fold_left Z.max (mtime <$> files) (mtime f) <= m)%Z).
        { destruct H3 as [-> | H3]; [exact Hf |].
          apply list_elem_of_fmap in H3 as (g & -> & Hg).
          rewrite Forall_forall in Hall. apply Hall, Hg. }
        rewrite fmap_cons in Hin. apply elem_of_cons in Hin as [-> | Hin]; [lia |].
        rewrite Forall_forall in H2. specialize (H2 m Hin). lia.
  - split; [discriminate |]. intros (fs & [=] & _).
Qed.

End PolicyFileFacts.

Module PolicyFileProperties.
Import Scan ScanFacts PolicyFileFacts Samples.

(** [_policies_max_mtime] returns the modification time of the newest
    policy file: one of the modification times, and none is greater;
    [None] when there is no file or no directory. *)
Theorem max_mtime_is_newest (w : world) :
  match _policies_max_mtime w with
  | Some m =>
      exists files, policies_dir w = Some files /\
                    m ∈ (mtime <$> files) /\ Forall (fun f => (mtime f <= m)%Z) files
  | None => policies_dir w = None \/ policies_dir w = Some []
  end.
Proof.
  destruct (_policies_max_mtime w) as [m |] eqn:E.
  - apply max_mtime_spec. exact E.
  - unfold _policies_max_mtime in E. destruct (policies_dir w) as [[| f files] |].
    + right. reflexivity.
    + discriminate.
    + left. reflexivity.
Qed.

(** A policy file that is removed is not noticed while another file is
    left: the newest modification time does not grow, so the load returns
    [False] and the policies of the removed files stay in the state. *)
Theorem removed_policy_file_is_not_noticed (w w' : world)
    (files files' : list policy_file) (r : run) :
  policies_dir w = Some files -> policies_dir w' = Some files' ->
  files' ⊆ files -> files' <> [] ->
  unchanged w (state r) = true ->
  _load_policies_from_disk w' false r = (Ok false, r).
Proof.
  intros Hdir Hdir' Hsub Hne Hun.
  unfold unchanged in Hun.
  destruct (_policies_mtime (state r)) as [known |] eqn:Hk; [| discriminate].
  destruct (_policies_max_mtime w) as [m |] eqn:Hm; [| discriminate].
  apply Z.leb_le in Hun.
  apply max_mtime_spec in Hm as (fs & Hfs & _ & Hall).
  rewrite Hdir in Hfs. injection Hfs as <-.
  destruct (_policies_max_mtime w') as [m' |] eqn:Hm'.
  - pose proof Hm' as Hspec. apply max_mtime_spec in Hspec as (fs' & Hfs' & Hin & _).
    rewrite Hdir' in Hfs'. injection Hfs' as <-.
    apply list_elem_of_fmap in Hin as (g & -> & Hg).
    rewrite Forall_forall in Hall. specialize (Hall g (Hsub g Hg)).
    unfold _load_policies_from_disk. rewrite bind_run. cbn [read].
    rewrite Hk, Hm'. cbn [negb andb].
    rewrite (proj2 (Z.leb_le _ _)) by lia. reflexivity.
  - unfold _policies_max_mtime in Hm'. rewrite Hdir' in Hm'.
    destruct files'; [contradiction | discriminate].
Qed.

Lemma removed_policy_file_is_not_noticed_witness :
  _load_policies_from_disk
    (World "/srv/backend"
           (Some [PolicyFile "secrets_handling" 1714550000
                             (Some "Never store tokens in shared docs.")])
           None (Some "sk-test") quiet_service sample_clock)
    false (scan_once world_without_document false fresh_run).2
  = (Ok false, (scan_once world_without_document false fresh_run).2).
Proof.
  apply (removed_policy_file_is_not_noticed world_without_document _
           sample_policy_files
           [PolicyFile "secrets_handling" 1714550000
                       (Some "Never store tokens in shared docs.")]).
  - reflexivity.
  - reflexivity.
  - intros f Hf. apply list_elem_of_singleton in Hf as ->. left.
  - discriminate.
  - vm_compute. reflexivity.
Defined.

End PolicyFileProperties.
